(** * MQL to Atlas Search converter: a shallow embedding of
      [MQLToAtlasSearchConverter] (mql-to-atlas-search.js) and the
      properties its specification states about it.

    The converter is a JavaScript class whose methods build plain JSON-like
    objects.  The embedding follows the class method by method:

    - values are a tree type [value]; an object is the list of its own
      enumerable properties in [Object.entries] order (a JavaScript object
      has no two properties of the same name; [lookup] takes the first), an
      array is the list of its elements;
    - a method is a function into a small monad [M] that records the
      [console.warn] calls, in order, and the exception, if any;
    - a [for ... of] loop is [forOf] over its entries with the variables the
      body assigns as its state; the two [while] loops of the pipeline
      methods only move forward and are recursions on the stages left;
    - the option bags are a record of optional values.

    The clauses and stages the methods return are values again, so that
    what a theorem states about an output can be read next to the object
    literal of the source.

    The shorter class that [demo.js] defines under the same name is embedded
    as the module [Demo], and compared with the converter at the end. *)

From Stdlib Require Import List String Ascii ZArith Bool Lia Arith DecimalString.
Import ListNotations.
Open Scope string_scope.
Open Scope list_scope.
Set Warnings "-register-all".

(* ================================================================== *)
(** * JavaScript values *)

Module JS.

(** Numbers are carried around, compared with [typeof] and tested for
    truthiness only; a finite number is represented by an integer and
    [VNaN] is kept apart because it is falsy. *)
Inductive value : Type :=
| VUndefined
| VNull
| VBool (b : bool)
| VNum (n : Z)
| VNaN
| VStr (s : string)
| VDate (time : Z)
| VRegExp (source flags : string)
| VArr (elems : list value)
| VObj (props : list (string * value)).

(** The induction principle that reaches into arrays and objects. *)
Section value_induction.
Variable P : value -> Prop.
Hypothesis Hundef : P VUndefined.
Hypothesis Hnull : P VNull.
Hypothesis Hbool : forall b, P (VBool b).
Hypothesis Hnum : forall n, P (VNum n).
Hypothesis Hnan : P VNaN.
Hypothesis Hstr : forall s, P (VStr s).
Hypothesis Hdate : forall t, P (VDate t).
Hypothesis Hregexp : forall s f, P (VRegExp s f).
Hypothesis Harr : forall elems, Forall P elems -> P (VArr elems).
Hypothesis Hobj :
  forall props, Forall (fun kv => P (snd kv)) props -> P (VObj props).

Fixpoint value_nested_ind (v : value) : P v :=
  match v with
  | VUndefined => Hundef
  | VNull => Hnull
  | VBool b => Hbool b
  | VNum n => Hnum n
  | VNaN => Hnan
  | VStr s => Hstr s
  | VDate t => Hdate t
  | VRegExp s f => Hregexp s f
  | VArr elems =>
      Harr elems
        ((fix all (l : list value) : Forall P l :=
            match l with
            | [] => Forall_nil P
            | x :: l' => Forall_cons x (value_nested_ind x) (all l')
            end) elems)
  | VObj props =>
      Hobj props
        ((fix all (l : list (string * value)) :
            Forall (fun kv => P (snd kv)) l :=
            match l with
            | [] => Forall_nil _
            | kv :: l' =>
                Forall_cons kv (value_nested_ind (snd kv)) (all l')
            end) props)
  end.
End value_induction.

(** [if (v)], [!v], [a || b]. *)
Definition truthy (v : value) : bool :=
  match v with
  | VUndefined | VNull | VNaN => false
  | VBool b => b
  | VNum n => negb (n =? 0)%Z
  | VStr s => negb (s =? "")
  | VDate _ | VRegExp _ _ | VArr _ | VObj _ => true
  end.

Definition or_else (a b : value) : value := if truthy a then a else b.

(** [typeof v === 'number'], [typeof v === 'string'], [typeof v === 'object']
    (the last one holds of [null] too). *)
Definition typeof_number (v : value) : bool :=
  match v with VNum _ | VNaN => true | _ => false end.

Definition typeof_string (v : value) : bool :=
  match v with VStr _ => true | _ => false end.

Definition typeof_object (v : value) : bool :=
  match v with
  | VNull | VDate _ | VRegExp _ _ | VArr _ | VObj _ => true
  | _ => false
  end.

Definition isArray (v : value) : bool :=
  match v with VArr _ => true | _ => false end.

(** The test of [convertFieldQuery] for a plain operator object:
    [typeof v === 'object' && v !== null && !Array.isArray(v) &&
     !(v instanceof Date) && !(v instanceof RegExp)]. *)
Definition isPlainObject (v : value) : bool :=
  match v with VObj _ => true | _ => false end.

(** [field.startsWith('$')] *)
Definition startsWith (s p : string) : bool := String.prefix p s.

(** Own properties of an object, as an association list. *)
Fixpoint lookup (k : string) (props : list (string * value)) : option value :=
  match props with
  | [] => None
  | (k', v) :: rest => if k' =? k then Some v else lookup k rest
  end.

(** [obj[k] = v] on an object under construction: an existing property is
    overwritten in place, a new one is added last.  That is the place of a new
    property whose name is no array index, or that follows the order of
    [Object.entries], as the names assigned in the converter do. *)
Fixpoint obj_set (props : list (string * value)) (k : string) (v : value)
  : list (string * value) :=
  match props with
  | [] => [(k, v)]
  | (k', v') :: rest =>
      if k' =? k then (k', v) :: rest else (k', v') :: obj_set rest k v
  end.

(** [obj[k] = v] for a name that is not known in advance: through the name
    [__proto__] an assignment reaches the accessor of [Object.prototype], which
    changes the prototype at most and defines no property. *)
Definition obj_assign (props : list (string * value)) (k : string) (v : value)
  : list (string * value) :=
  if k =? "__proto__" then props else obj_set props k v.

(** The conversion to a string, as in a template literal [`${v}`], throws
    a TypeError.  For an object it calls [v.toString()]: a plain object with
    an own property [toString] has no function there, since no value here is
    one, and the fallback [valueOf] is no function either or gives the object
    back; an array joins the strings of its elements, [null] and [undefined]
    apart.  Primitives, dates and regular expressions always convert. *)
Fixpoint toStringThrows (v : value) : bool :=
  match v with
  | VObj props => existsb (fun kv => fst kv =? "toString") props
  | VArr elems => existsb toStringThrows elems
  | _ => false
  end.

(** The key of the [i]-th element of an array or character of a string. *)
Definition index_key (i : nat) : string :=
  NilZero.string_of_uint (Nat.to_uint i).

Fixpoint array_entries (i : nat) (elems : list value)
  : list (string * value) :=
  match elems with
  | [] => []
  | x :: rest => (index_key i, x) :: array_entries (S i) rest
  end.

Fixpoint string_entries (i : nat) (s : string) : list (string * value) :=
  match s with
  | EmptyString => []
  | String c rest =>
      (index_key i, VStr (String c EmptyString)) :: string_entries (S i) rest
  end.

(** The own enumerable string-keyed properties of a value that is not
    [null] or [undefined]: what [Object.entries] enumerates and what an object
    spread copies. *)
Definition own_entries (v : value) : list (string * value) :=
  match v with
  | VObj props => props
  | VArr elems => array_entries 0 elems
  | VStr s => string_entries 0 s
  | _ => []
  end.

(** The number a property name stands for when it is an array index: a
    decimal numeral without a leading zero, below [2^32 - 1]. *)
Definition digitValue (c : ascii) : option N :=
  let n := N_of_ascii c in
  if (48 <=? n)%N && (n <=? 57)%N then Some (n - 48)%N else None.

Fixpoint decimal (s : string) (acc : N) : option N :=
  match s with
  | EmptyString => Some acc
  | String c rest =>
      match digitValue c with
      | Some d => decimal rest (10 * acc + d)%N
      | None => None
      end
  end.

Definition arrayIndex (k : string) : option N :=
  match k with
  | EmptyString => None
  | String c rest =>
      if (c =? "0")%char && negb (rest =? "") then None
      else
        match decimal k 0 with
        | Some n => if (n <? 4294967295)%N then Some n else None
        | None => None
        end
  end.

(** A new property [k] whose name is the array index [n] takes its place
    among the array indices, which an object enumerates first and in
    ascending order. *)
Fixpoint insertIndex (n : N) (k : string) (v : value)
  (props : list (string * value)) : list (string * value) :=
  match props with
  | [] => [(k, v)]
  | (k', v') :: rest =>
      match arrayIndex k' with
      | Some n' =>
          if (n' <? n)%N then (k', v') :: insertIndex n k v rest
          else (k, v) :: (k', v') :: rest
      | None => (k, v) :: (k', v') :: rest
      end
  end.

(** The definition of property [k] with value [v], as an object spread does
    it: an existing property keeps its place and takes the value; a new one
    comes last, unless its name is an array index. *)
Definition obj_define (props : list (string * value)) (k : string) (v : value)
  : list (string * value) :=
  match lookup k props, arrayIndex k with
  | None, Some n => insertIndex n k v props
  | _, _ => obj_set props k v
  end.

(** [{...base, ...v}]: spreading [null] or [undefined] copies nothing. *)
Definition spread (base : list (string * value)) (v : value)
  : list (string * value) :=
  fold_left (fun acc kv => obj_define acc (fst kv) (snd kv)) (own_entries v) base.

End JS.
Import JS.

(* ================================================================== *)
(** * Effects: diagnostics and exceptions *)

(** What the code throws. *)
Inductive error : Type :=
| PipelineMustBeArray          (* Error('Pipeline must be an array') *)
| NotAtFieldLevel              (* Error('$not operator should be handled at field level') *)
| UnsupportedLogicalOperator (operator : string)
                               (* Error(`Unsupported logical operator: ${operator}`) *)
| UnableToConvert              (* Error('Unable to convert query to Atlas Search') *)
| TypeError.                   (* raised by the language: property of null or
                                  undefined, call of a non-function *)

(** What the code passes to [console.warn]. *)
Inductive diagnostic : Type :=
| ComplexSortField (field : string) (direction : value)
| InexactArrayMatch
| UnsupportedOperator (operator : string).

Inductive outcome (A : Type) : Type :=
| Return (a : A)
| Throw (e : error).
Arguments Return {A} a.
Arguments Throw {A} e.

(** A computation: the warnings printed, in order, and how it ended. *)
Definition M (A : Type) : Type := (list diagnostic * outcome A)%type.

Definition ret {A} (a : A) : M A := ([], Return a).
Definition throw {A} (e : error) : M A := ([], Throw e).
Definition warn (d : diagnostic) : M unit := ([d], Return tt).

Definition bind {A B} (m : M A) (f : A -> M B) : M B :=
  match m with
  | (w, Throw e) => (w, Throw e)
  | (w, Return a) => let (w', r) := f a in (w ++ w', r)
  end.

Arguments bind {A B} m f : simpl never.

Declare Scope js_scope.
Delimit Scope js_scope with js.
Notation "x <- m ;; k" := (bind m (fun x => k))
  (at level 61, m at next level, right associativity) : js_scope.
Notation "m ;; k" := (bind m (fun _ => k))
  (at level 61, right associativity) : js_scope.
Open Scope js_scope.

Definition warnings {A} (m : M A) : list diagnostic := fst m.
Definition result {A} (m : M A) : outcome A := snd m.

(** The computation ends with an exception, or with a value. *)
Definition throws {A} (m : M A) : Prop := exists w e, m = (w, Throw e).
Definition returns {A} (m : M A) : Prop := exists w a, m = (w, Return a).

(** [for (const x of xs) body], threading the variables the body assigns. *)
Section Loops.
Context {A S : Type} (body : S -> A -> M S).

Fixpoint forOf (xs : list A) (s : S) : M S :=
  match xs with
  | [] => ret s
  | x :: rest => s' <- body s x ;; forOf rest s'
  end.
End Loops.

(** [xs.flatMap(f)] for a callback that returns arrays. *)
Section FlatMap.
Context {A B : Type} (f : A -> M (list B)).

Fixpoint flatMap (xs : list A) : M (list B) :=
  match xs with
  | [] => ret []
  | x :: rest => ys <- f x ;; zs <- flatMap rest ;; ret (ys ++ zs)
  end.
End FlatMap.

(** [Object.entries(v)], [Object.keys(v)]: a TypeError on [null] and
    [undefined]. *)
Definition entries (v : value) : M (list (string * value)) :=
  match v with
  | VUndefined | VNull => throw TypeError
  | _ => ret (own_entries v)
  end.

(** [v.name] for a property name that no prototype defines (every name read
    this way in the converter starts with [$]). *)
Definition get (v : value) (name : string) : M value :=
  match v with
  | VUndefined | VNull => throw TypeError
  | VObj props =>
      ret (match lookup name props with Some x => x | None => VUndefined end)
  | _ => ret VUndefined
  end.

(** [v?.name] *)
Definition get_opt (v : value) (name : string) : M value :=
  match v with
  | VUndefined | VNull => ret VUndefined
  | _ => get v name
  end.

(* ================================================================== *)
(** * The converter class *)

(** [class MQLToAtlasSearchConverter]: its only field. *)
Record MQLToAtlasSearchConverter : Type := { indexName : value }.

(** [constructor(indexName = 'default')]: the default replaces a missing
    or [undefined] argument. *)
Definition constructor (name : value) : MQLToAtlasSearchConverter :=
  {| indexName := match name with VUndefined => VStr "default" | _ => name end |}.

(** ** Clause literals *)

Definition equalsClause (field : string) (v : value) : value :=
  VObj [("equals", VObj [("path", VStr field); ("value", v)])].

Definition rangeClause (field bound : string) (v : value) : value :=
  VObj [("range", VObj [("path", VStr field); (bound, v)])].

Definition inClause (field : string) (v : value) : value :=
  VObj [("in", VObj [("path", VStr field); ("value", v)])].

Definition existsClause (field : string) : value :=
  VObj [("exists", VObj [("path", VStr field)])].

Definition mustClause (clauses : list value) : value :=
  VObj [("compound", VObj [("must", VArr clauses)])].

Definition mustNotClause (clauses : list value) : value :=
  VObj [("compound", VObj [("mustNot", VArr clauses)])].

Definition shouldClause (clauses : list value) : value :=
  VObj [("compound",
         VObj [("should", VArr clauses); ("minimumShouldMatch", VNum 1)])].

(** ** convertFieldOperators *)

(** The body of the loop of [convertFieldOperators]: one [switch] on the
    operator.  [self] is the method itself, called for [$not]; the loop
    variables are [clauses] and [regexHandled]. *)
Definition fieldOperatorCase (self : value -> M (list value))
  (field : string) (operators : value)
  (st : list value * bool) (entry : string * value)
  : M (list value * bool) :=
  let '(clauses, regexHandled) := st in
  let '(operator, value) := entry in
  if operator =? "$eq" then
    ret (clauses ++ [equalsClause field value], regexHandled)
  else if operator =? "$ne" then
    ret (clauses ++ [mustNotClause [equalsClause field value]], regexHandled)
  else if operator =? "$gt" then
    ret (clauses ++ [rangeClause field "gt" value], regexHandled)
  else if operator =? "$gte" then
    ret (clauses ++ [rangeClause field "gte" value], regexHandled)
  else if operator =? "$lt" then
    ret (clauses ++ [rangeClause field "lt" value], regexHandled)
  else if operator =? "$lte" then
    ret (clauses ++ [rangeClause field "lte" value], regexHandled)
  else if operator =? "$in" then
    ret (clauses ++ [inClause field value], regexHandled)
  else if operator =? "$nin" then
    ret (clauses ++ [mustNotClause [inClause field value]], regexHandled)
  else if operator =? "$exists" then
    if truthy value
    then ret (clauses ++ [existsClause field], regexHandled)
    else ret (clauses ++ [mustNotClause [existsClause field]], regexHandled)
  else if operator =? "$regex" then
    if negb regexHandled then
      let regexValue := value in
      o <- get operators "$options" ;;
      let options := or_else o (VStr "") in
      if typeof_string regexValue then
        let regex := [("query", regexValue); ("path", VStr field)] in
        let regex :=
          if truthy options then obj_set regex "options" options else regex in
        ret (clauses ++ [VObj [("regex", VObj regex)]], true)
      else ret (clauses, true)
    else ret (clauses, regexHandled)
  else if operator =? "$options" then
    ret (clauses, regexHandled)
  else if operator =? "$not" then
    notClauses <- self value ;;
    ret (clauses ++ [mustNotClause notClauses], regexHandled)
  else
    warn (UnsupportedOperator operator) ;;
    ret (clauses, regexHandled).

(** The loop over [Object.entries(operators)] and the [return clauses]. *)
Definition fieldOperatorsLoop (self : value -> M (list value))
  (field : string) (operators : value) (es : list (string * value))
  : M (list value) :=
  st <- forOf (fieldOperatorCase self field operators) es ([], false) ;;
  ret (fst st).

(** [convertFieldOperators(field, operators)].  The method calls itself on
    the value of a [$not] key.  Such a key is a property of a plain object
    only: the entries of an array or of a string are keyed by indices, so
    for them the loop runs without a recursive call
    (see [convertFieldOperators_eq] for the equation of the source). *)
Fixpoint convertFieldOperators (field : string) (operators : value)
  {struct operators} : M (list value) :=
  match operators with
  | VObj props =>
      fieldOperatorsLoop (convertFieldOperators field) field operators props
  | _ =>
      es <- entries operators ;;
      fieldOperatorsLoop (fun _ => throw TypeError) field operators es
  end.

(** ** convertFieldQuery *)

(** The two-branch compound for [{field: null}]: the field is [null] or the
    field is missing. *)
Definition nullClause (field : string) : value :=
  shouldClause [equalsClause field VNull; mustNotClause [existsClause field]].

(** [convertFieldQuery(field, value)] *)
Definition convertFieldQuery (field : string) (val : value)
  : M (list value) :=
  match val with
  | VNull => ret [nullClause field]
  | VObj _ => convertFieldOperators field val
  | VArr elems =>
      if (List.length elems =? 0)%nat then ret [mustNotClause [existsClause field]]
      else if (List.length elems =? 1)%nat then
        ret [equalsClause field (nth 0 elems VUndefined)]
      else
        warn InexactArrayMatch ;;
        let elementQueries := map (equalsClause field) elems in
        ret [mustClause elementQueries]
  | _ => ret [equalsClause field val]
  end.

(** ** convertQuery and convertLogicalOperator *)

(** [value.flatMap(subQuery => this.convertQuery(subQuery))]: only an array
    has the method. *)
Definition callFlatMap (f : value -> M (list value)) (val : value)
  : M (list value) :=
  match val with
  | VArr elems => flatMap f elems
  | _ => throw TypeError
  end.

(** The [switch] of [convertLogicalOperator]; [convertQuery] is the method
    it calls back. *)
Definition convertLogicalOperatorWith (convertQuery : value -> M (list value))
  (operator : string) (val : value) : M (list value) :=
  if operator =? "$and" then
    cs <- callFlatMap convertQuery val ;; ret [mustClause cs]
  else if operator =? "$or" then
    cs <- callFlatMap convertQuery val ;; ret [shouldClause cs]
  else if operator =? "$nor" then
    cs <- callFlatMap convertQuery val ;; ret [mustNotClause cs]
  else if operator =? "$not" then
    throw NotAtFieldLevel
  else
    throw (UnsupportedLogicalOperator operator).

(** The body of the loop of [convertQuery]. *)
Definition queryEntryCase (logical : string -> value -> M (list value))
  (clauses : list value) (entry : string * value) : M (list value) :=
  let '(field, value) := entry in
  if startsWith field "$" then
    cs <- logical field value ;; ret (clauses ++ cs)
  else
    cs <- convertFieldQuery field value ;; ret (clauses ++ cs).

(** [convertQuery(query)].  It is reached again through the value of a key
    that starts with [$]; as for [convertFieldOperators], only a plain object
    has such a key (see [convertQuery_eq] for the equation of the source). *)
Fixpoint convertQuery (query : value) {struct query} : M (list value) :=
  match query with
  | VObj props =>
      forOf (queryEntryCase (convertLogicalOperatorWith convertQuery)) props []
  | _ =>
      es <- entries query ;;
      forOf (queryEntryCase
               (convertLogicalOperatorWith (fun _ => throw TypeError))) es []
  end.

(** [convertLogicalOperator(operator, value)] *)
Definition convertLogicalOperator : string -> value -> M (list value) :=
  convertLogicalOperatorWith convertQuery.

(** ** convertQueryToSearch *)

Definition searchStageOf (props : list (string * value)) : value :=
  VObj [("$search", VObj props)].

(** The match-all request: an existence test on [_id]. *)
Definition matchAll (this : MQLToAtlasSearchConverter) : value :=
  searchStageOf [("index", indexName this); ("exists", VObj [("path", VStr "_id")])].

(** [convertQueryToSearch(query)] *)
Definition convertQueryToSearch (this : MQLToAtlasSearchConverter)
  (query : value) : M value :=
  keys <- entries query ;;
  if (List.length keys =? 0)%nat then ret (matchAll this)
  else
    searchClauses <- convertQuery query ;;
    if (List.length searchClauses =? 0)%nat then ret (matchAll this)
    else if (List.length searchClauses =? 1)%nat then
      ret (searchStageOf
             (spread [("index", indexName this)]
                     (nth 0 searchClauses VUndefined)))
    else if (1 <? List.length searchClauses)%nat then
      ret (searchStageOf
             [("index", indexName this);
              ("compound", VObj [("must", VArr searchClauses)])])
    else throw UnableToConvert.

(** ** Sort *)

(** The loop of [convertSortToAtlasSearch] with its early [return null].
    The message of the warning is a template literal with [direction] in it,
    so it is built, and can throw, before [console.warn] is called. *)
Fixpoint sortLoop (es : list (string * value))
  (searchSort : list (string * value)) : M value :=
  match es with
  | [] => ret (if (0 <? List.length searchSort)%nat then VObj searchSort else VNull)
  | (field, direction) :: rest =>
      if typeof_number direction then
        sortLoop rest
          (obj_assign searchSort field (VObj [("order", direction)]))
      else if toStringThrows direction then throw TypeError
      else
        warn (ComplexSortField field direction) ;;
        ret VNull
  end.

(** [convertSortToAtlasSearch(sortSpec)] *)
Definition convertSortToAtlasSearch (sortSpec : value) : M value :=
  if negb (truthy sortSpec) || negb (typeof_object sortSpec) then ret VNull
  else sortLoop (own_entries sortSpec) [].

(** The option bags of the public methods; a missing option is
    [VUndefined]. *)
Record Options : Type := {
  projection : value;
  sort : value;
  limit : value;
  skip : value;
  includeProjection : value
}.

Definition noOptions : Options :=
  {| projection := VUndefined; sort := VUndefined; limit := VUndefined;
     skip := VUndefined; includeProjection := VUndefined |}.

(** [{ includeProjection: true }] *)
Definition includingProjection : Options :=
  {| projection := VUndefined; sort := VUndefined; limit := VUndefined;
     skip := VUndefined; includeProjection := VBool true |}.

Definition sortOnly (s : value) : Options :=
  {| projection := VUndefined; sort := s; limit := VUndefined;
     skip := VUndefined; includeProjection := VUndefined |}.

(** [baseSearch.$search.sort = searchSort], for the stage object that
    [convertQueryToSearch] has just built. *)
Definition setSearchSort (baseSearch searchSort : value) : M value :=
  search <- get baseSearch "$search" ;;
  match baseSearch, search with
  | VObj stage, VObj props =>
      ret (VObj (obj_set stage "$search"
                   (VObj (obj_set props "sort" searchSort))))
  | _, _ => throw TypeError
  end.

(** [convertQueryToSearchWithOptions(query, options)] *)
Definition convertQueryToSearchWithOptions (this : MQLToAtlasSearchConverter)
  (query : value) (options : Options) : M value :=
  baseSearch <- convertQueryToSearch this query ;;
  if truthy (sort options) then
    searchSort <- convertSortToAtlasSearch (sort options) ;;
    if truthy searchSort then setSearchSort baseSearch searchSort
    else ret baseSearch
  else ret baseSearch.

(** ** Pipeline folding *)

(** The result object of [optimizePipelineSequence]:
    [{ optimized: false }] or
    [{ optimized: true, searchStage, remainingStages, nextIndex }]. *)
Inductive Optimization : Type :=
| NotOptimized
| Optimized (searchStage : value) (remainingStages : list value)
            (nextIndex : nat).

(** The local variables of the look-ahead loop. *)
Record Scan : Type := {
  sortStage : value;
  limitStage : value;
  skipStage : value;
  projectStage : value;
  currentIndex : nat;
  remainingStages : list value
}.

Definition scanStart (startIndex : nat) : Scan :=
  {| sortStage := VNull; limitStage := VNull; skipStage := VNull;
     projectStage := VNull; currentIndex := startIndex + 1;
     remainingStages := [] |}.

(** [while (currentIndex < pipeline.length)] of [optimizePipelineSequence];
    [stages] is [pipeline.slice(currentIndex)], so its head is
    [pipeline[currentIndex]] and the loop ends when it is empty or at the
    [break].  The four properties of the stage are read up front: reading
    one throws exactly when reading any other does (the stage is [null] or
    [undefined]) and prints nothing, so the short-circuit order of the
    source cannot be observed. *)
Fixpoint scanStages (options : Options) (stages : list value) (st : Scan)
  : M Scan :=
  match stages with
  | [] => ret st
  | stage :: rest =>
      s <- get stage "$sort" ;;
      l <- get stage "$limit" ;;
      k <- get stage "$skip" ;;
      p <- get stage "$project" ;;
      let next := S (currentIndex st) in
      if truthy s && negb (truthy (sortStage st)) then
        scanStages options rest
          {| sortStage := stage; limitStage := limitStage st;
             skipStage := skipStage st; projectStage := projectStage st;
             currentIndex := next; remainingStages := remainingStages st |}
      else if truthy l && negb (truthy (limitStage st)) then
        scanStages options rest
          {| sortStage := sortStage st; limitStage := stage;
             skipStage := skipStage st; projectStage := projectStage st;
             currentIndex := next; remainingStages := remainingStages st |}
      else if truthy k && negb (truthy (skipStage st)) then
        scanStages options rest
          {| sortStage := sortStage st; limitStage := limitStage st;
             skipStage := stage; projectStage := projectStage st;
             currentIndex := next; remainingStages := remainingStages st |}
      else if truthy p && negb (truthy (projectStage st))
              && truthy (includeProjection options) then
        scanStages options rest
          {| sortStage := sortStage st; limitStage := limitStage st;
             skipStage := skipStage st; projectStage := stage;
             currentIndex := next; remainingStages := remainingStages st |}
      else
        ret {| sortStage := sortStage st; limitStage := limitStage st;
               skipStage := skipStage st; projectStage := projectStage st;
               currentIndex := currentIndex st;
               remainingStages := remainingStages st ++ stage :: rest |}
  end.

(** [optimizePipelineSequence(pipeline, startIndex, options)] *)
Definition optimizePipelineSequence (this : MQLToAtlasSearchConverter)
  (pipeline : list value) (startIndex : nat) (options : Options)
  : M Optimization :=
  let matchStage := nth startIndex pipeline VUndefined in
  query <- get matchStage "$match" ;;
  if negb (truthy query) then ret NotOptimized
  else
    st <- scanStages options (skipn (startIndex + 1) pipeline)
            (scanStart startIndex) ;;
    sortSpec <- get_opt (sortStage st) "$sort" ;;
    searchStage <- convertQueryToSearchWithOptions this query (sortOnly sortSpec) ;;
    let remaining := remainingStages st in
    remaining <-
      (if truthy (skipStage st) then
         k <- get (skipStage st) "$skip" ;; ret (VObj [("$skip", k)] :: remaining)
       else ret remaining) ;;
    remaining <-
      (if truthy (limitStage st) then
         l <- get (limitStage st) "$limit" ;; ret (VObj [("$limit", l)] :: remaining)
       else ret remaining) ;;
    let remaining :=
      if truthy (projectStage st) && negb (truthy (includeProjection options))
      then projectStage st :: remaining else remaining in
    ret (Optimized searchStage remaining (currentIndex st)).

(** [while (i < pipeline.length)] of [convertAggregationPipeline].  Every
    turn moves [i] forward, so [pipeline.length] turns are enough
    (see [pipelineLoop_enough]). *)
Fixpoint pipelineLoop (turns : nat) (this : MQLToAtlasSearchConverter)
  (pipeline : list value) (options : Options) (i : nat)
  (newPipeline : list value) : M (list value) :=
  match turns with
  | O => ret newPipeline
  | S turns' =>
      if (i <? List.length pipeline)%nat then
        let stage := nth i pipeline VUndefined in
        query <- get stage "$match" ;;
        if truthy query then
          optimization <- optimizePipelineSequence this pipeline i options ;;
          match optimization with
          | Optimized searchStage remaining nextIndex =>
              pipelineLoop turns' this pipeline options nextIndex
                (newPipeline ++ [searchStage] ++ remaining)
          | NotOptimized =>
              searchStage <- convertQueryToSearch this query ;;
              pipelineLoop turns' this pipeline options (S i)
                (newPipeline ++ [searchStage])
          end
        else
          pipelineLoop turns' this pipeline options (S i)
            (newPipeline ++ [stage])
      else ret newPipeline
  end.

(** [convertAggregationPipeline(pipeline, options)] *)
Definition convertAggregationPipeline (this : MQLToAtlasSearchConverter)
  (pipeline : value) (options : Options) : M (list value) :=
  match pipeline with
  | VArr stages =>
      pipelineLoop (List.length stages) this stages options 0 []
  | _ => throw PipelineMustBeArray
  end.

(** ** convertFindQuery *)

(** The three optional stages both branches of [convertFindQuery] push. *)
Definition pushOptions (options : Options) (pipeline : list value)
  : list value :=
  let pipeline :=
    if truthy (projection options)
    then pipeline ++ [VObj [("$project", projection options)]] else pipeline in
  let pipeline :=
    if truthy (skip options)
    then pipeline ++ [VObj [("$skip", skip options)]] else pipeline in
  if truthy (limit options)
  then pipeline ++ [VObj [("$limit", limit options)]] else pipeline.

(** [convertFindQuery(query, options)] *)
Definition convertFindQuery (this : MQLToAtlasSearchConverter)
  (query : value) (options : Options) : M (list value) :=
  if truthy (sort options) then
    searchStage <-
      convertQueryToSearchWithOptions this query (sortOnly (sort options)) ;;
    ret (pushOptions options [searchStage])
  else
    searchStage <- convertQueryToSearch this query ;;
    ret (pushOptions options [searchStage]).

(** ** Text search and autocomplete *)

(** [createTextSearch(searchText, path = '*', options = {})] *)
Definition createTextSearch (this : MQLToAtlasSearchConverter)
  (searchText path options : value) : value :=
  let path := match path with VUndefined => VStr "*" | _ => path end in
  searchStageOf
    [("index", indexName this);
     ("text", VObj (spread [("query", searchText); ("path", path)] options))].

(** [createAutocomplete(query, path, options = {})] *)
Definition createAutocomplete (this : MQLToAtlasSearchConverter)
  (query path options : value) : value :=
  searchStageOf
    [("index", indexName this);
     ("autocomplete",
      VObj (spread [("query", query); ("path", path)] options))].

(* ================================================================== *)
(** * Vocabulary of the specification *)

(** The [case] labels of the [switch] of [convertFieldOperators]; any other
    key takes the [default] branch. *)
Definition operatorCases : list string :=
  ["$eq"; "$ne"; "$gt"; "$gte"; "$lt"; "$lte"; "$in"; "$nin"; "$exists";
   "$regex"; "$options"; "$not"].

Definition unrecognized (operator : string) : bool :=
  negb (existsb (String.eqb operator) operatorCases).

(** The four range operators and the bound each one writes. *)
Definition isRangeKey (operator : string) : bool :=
  existsb (String.eqb operator) ["$gt"; "$gte"; "$lt"; "$lte"].

Definition rangeBound (operator : string) : string :=
  if operator =? "$gt" then "gt"
  else if operator =? "$gte" then "gte"
  else if operator =? "$lt" then "lt"
  else "lte".

Definition rangeClauseOf (field : string) (entry : string * value) : value :=
  rangeClause field (rangeBound (fst entry)) (snd entry).

(** An Operator Set: a plain object in which a [$not] key wraps an Operator
    Set again. *)
Fixpoint isOperatorSet (v : value) : bool :=
  match v with
  | VObj props =>
      forallb (fun kv =>
                 if fst kv =? "$not" then isOperatorSet (snd kv) else true)
              props
  | _ => false
  end.

(** An Operator Set all of whose keys, at every depth, are [case] labels. *)
Fixpoint allRecognized (v : value) : bool :=
  match v with
  | VObj props =>
      forallb (fun kv =>
                 negb (unrecognized (fst kv)) &&
                 (if fst kv =? "$not" then allRecognized (snd kv) else true))
              props
  | _ => false
  end.

(** The operator keys of the Operator Set vocabulary whose conversion adds
    exactly one clause and prints nothing: the nine comparison and existence
    keys with any value, [$regex] with a string, [$not] around an Operator
    Set that has recognized keys only. *)
Definition yieldsOneClause (operator : string) (val : value) : bool :=
  if existsb (String.eqb operator)
       ["$eq"; "$ne"; "$gt"; "$gte"; "$lt"; "$lte"; "$in"; "$nin"; "$exists"]
  then true
  else if operator =? "$regex" then typeof_string val
  else if operator =? "$not" then allRecognized val
  else false.

(** The single key of a clause object. *)
Definition clauseKind (clause : value) : option string :=
  match clause with
  | VObj [(kind, _)] => Some kind
  | _ => None
  end.

Definition isKind (kind : string) (clause : value) : bool :=
  match clauseKind clause with
  | Some k => k =? kind
  | None => false
  end.

(** The pattern clause for pattern [p] and the value found under
    [$options]: [regex: {query: p, path: field}], with [options] when that
    value is truthy. *)
Definition regexClause (field : string) (p : string) (options : value)
  : value :=
  VObj [("regex",
         VObj ([("query", VStr p); ("path", VStr field)] ++
               (if truthy options then [("options", options)] else [])))].


(** The pattern clauses the loop of [convertFieldOperators] still has to
    add when it enters [es] with the flag [regexHandled]. *)
Definition pendingRegex (field : string) (options : value)
  (regexHandled : bool) (es : list (string * value)) : list value :=
  if regexHandled then []
  else match lookup "$regex" es with
       | Some (VStr p) => [regexClause field p options]
       | _ => []
       end.

Definition optionsOf (props : list (string * value)) : value :=
  match lookup "$options" props with Some o => o | None => VUndefined end.

(** The operators of the target vocabulary: a Search Clause is an object
    with one of these as its single key. *)
Definition clauseKinds : list string :=
  ["equals"; "range"; "in"; "exists"; "regex"; "compound"].

Definition isSearchClause (clause : value) : bool :=
  match clauseKind clause with
  | Some kind => existsb (String.eqb kind) clauseKinds
  | None => false
  end.

Definition allClauses (clauses : list value) : Prop :=
  forallb isSearchClause clauses = true.

(** [stage.$search] of a stage object, if it has one. *)
Definition searchOf (stage : value) : option value :=
  match stage with
  | VObj st => lookup "$search" st
  | _ => None
  end.

(** Entries none of whose keys starts with [$]. *)
Definition indexKeyed (es : list (string * value)) : Prop :=
  Forall (fun kv => startsWith (fst kv) "$" = false) es.

(** [$search.index] of a stage. *)
Definition searchIndex (stage : value) : option value :=
  match stage with
  | VObj st =>
      match lookup "$search" st with
      | Some (VObj props) => lookup "index" props
      | _ => None
      end
  | _ => None
  end.

(** A stage that is no [$search] stage, or one on the index of the
    converter. *)
Definition carriesIndex (this : MQLToAtlasSearchConverter) (stage : value)
  : Prop :=
  searchOf stage = None \/ searchIndex stage = Some (indexName this).

(** [stage.<key>] is read without an exception and is falsy. *)
Definition keyFalsy (key : string) (stage : value) : Prop :=
  exists v, get stage key = ret v /\ truthy v = false.

(** A stage at which the look-ahead stops whatever it has captured. *)
Definition unfoldable (stage : value) : Prop :=
  keyFalsy "$sort" stage /\ keyFalsy "$limit" stage /\
  keyFalsy "$skip" stage /\ keyFalsy "$project" stage.

(** A Filter Expression with a [$]-key other than [$and], [$or] and [$nor]
    at a logical level: among its own keys, or in a member of the list under
    one of these three. *)
Inductive hasUnsupportedLogical : value -> Prop :=
| unsupported_here props operator val :
    In (operator, val) props ->
    startsWith operator "$" = true ->
    operator <> "$and" -> operator <> "$or" -> operator <> "$nor" ->
    hasUnsupportedLogical (VObj props)
| unsupported_below props operator subs sub :
    In (operator, VArr subs) props ->
    operator = "$and" \/ operator = "$or" \/ operator = "$nor" ->
    In sub subs ->
    hasUnsupportedLogical sub ->
    hasUnsupportedLogical (VObj props).

(* ================================================================== *)
(** * Further vocabulary *)

(** A literal field value: neither [null], nor an array, nor a plain
    object.  Dates and regular expression objects are literals here, as
    they are for [convertFieldQuery]. *)
Definition isLiteral (v : value) : bool :=
  match v with
  | VNull | VArr _ | VObj _ => false
  | _ => true
  end.

(** A field whose value is an operator object with unrecognized keys only
    (possibly none). *)
Definition onlyUnsupported (entry : string * value) : bool :=
  negb (startsWith (fst entry) "$") &&
  match snd entry with
  | VObj operators => forallb (fun kv => unrecognized (fst kv)) operators
  | _ => false
  end.

(** The keys of the operator object of a field. *)
Definition operatorKeys (entry : string * value) : list string :=
  match snd entry with
  | VObj operators => map fst operators
  | _ => []
  end.

(** A field with a literal value. *)
Definition literalField (entry : string * value) : bool :=
  negb (startsWith (fst entry) "$") && isLiteral (snd entry).

Definition equalsClauseOf (entry : string * value) : value :=
  equalsClause (fst entry) (snd entry).

(** The clauses one entry of a filter contributes. *)
Definition entryClauses (entry : string * value) : M (list value) :=
  if startsWith (fst entry) "$"
  then convertLogicalOperator (fst entry) (snd entry)
  else convertFieldQuery (fst entry) (snd entry).

(** The three junctions of [convertLogicalOperator]. *)
Definition isJunction (operator : string) : bool :=
  existsb (String.eqb operator) ["$and"; "$or"; "$nor"].

(** The unrecognized keys of an operator object, those of the objects under
    [$not] included, in the order the conversion meets them. *)
Fixpoint unrecognizedKeys (v : value) : list string :=
  match v with
  | VObj props =>
      flat_map (fun kv =>
                  if unrecognized (fst kv) then [fst kv]
                  else if fst kv =? "$not" then unrecognizedKeys (snd kv)
                  else [])
               props
  | _ => []
  end.

(** The keys that add one clause whatever their value. *)
Definition isClauseKey (operator : string) : bool :=
  existsb (String.eqb operator)
    ["$eq"; "$ne"; "$gt"; "$gte"; "$lt"; "$lte"; "$in"; "$nin"; "$exists";
     "$not"].

(** One more clause for a [$regex] key with a string pattern. *)
Definition patternCount (props : list (string * value)) : nat :=
  match lookup "$regex" props with
  | Some (VStr _) => 1
  | _ => 0
  end.

(** [null] or [undefined], or an object with a [$not] key over such a
    value, at any depth. *)
Fixpoint wrapsNull (v : value) : bool :=
  match v with
  | VUndefined | VNull => true
  | VObj props =>
      existsb (fun kv => (fst kv =? "$not") && wrapsNull (snd kv)) props
  | _ => false
  end.

(** Every exception of the computation satisfies [P]. *)
Definition throwsOnly {A} (P : error -> Prop) (m : M A) : Prop :=
  forall w e, m = (w, Throw e) -> P e.

(** The exceptions of a filter: a TypeError of the language, and the two
    errors of [convertLogicalOperator], the second one for a key that starts
    with [$] and has no case in its [switch]. *)
Definition isFilterError (e : error) : bool :=
  match e with
  | TypeError | NotAtFieldLevel => true
  | UnsupportedLogicalOperator operator =>
      startsWith operator "$" &&
      negb (existsb (String.eqb operator) ["$and"; "$or"; "$nor"; "$not"])
  | PipelineMustBeArray | UnableToConvert => false
  end.

(** [v == null]: the two values whose properties cannot be read. *)
Definition isNullish (v : value) : bool :=
  match v with
  | VUndefined | VNull => true
  | _ => false
  end.

(** The [path] of an operator clause, and the paths of the clauses inside a
    [compound]. *)
Fixpoint clausePaths (clause : value) : list value :=
  match clause with
  | VObj [(kind, VObj body)] =>
      if kind =? "compound" then
        flat_map (fun kv =>
                    match snd kv with
                    | VArr clauses => flat_map clausePaths clauses
                    | _ => []
                    end)
                 body
      else
        match lookup "path" body with
        | Some path => [path]
        | None => []
        end
  | _ => []
  end.

(** The field names of a filter: its keys that do not start with [$], and
    those of the filters listed under a key that does. *)
Fixpoint fieldNames (query : value) : list string :=
  match query with
  | VObj props =>
      flat_map (fun kv =>
                  if startsWith (fst kv) "$" then
                    match snd kv with
                    | VArr filters => flat_map fieldNames filters
                    | _ => []
                    end
                  else [fst kv])
               props
  | _ => map fst (own_entries query)
  end.

(** One field of [$search.sort]: [field: { order: direction }]. *)
Definition sortField (entry : string * value) : string * value :=
  (fst entry, VObj [("order", snd entry)]).

(** The options with another [sort]. *)
Definition withSort (options : Options) (s : value) : Options :=
  {| projection := projection options; sort := s; limit := limit options;
     skip := skip options; includeProjection := includeProjection options |}.

(* ================================================================== *)
(** * The converter of the demo script *)

(** [demo.js] carries a class of its own under the same name, a shorter
    version of the converter.  Its methods keep their names inside this
    module; the clause literals, the loops and the effects are shared. *)
Module Demo.

(** The body of the loop of [convertFieldOperators]: no case for [$regex]
    and [$options], and [clauses] is the only loop variable. *)
Definition fieldOperatorCase (self : value -> M (list value))
  (field : string) (clauses : list value) (entry : string * value)
  : M (list value) :=
  let '(operator, value) := entry in
  if operator =? "$eq" then
    ret (clauses ++ [equalsClause field value])
  else if operator =? "$ne" then
    ret (clauses ++ [mustNotClause [equalsClause field value]])
  else if operator =? "$gt" then
    ret (clauses ++ [rangeClause field "gt" value])
  else if operator =? "$gte" then
    ret (clauses ++ [rangeClause field "gte" value])
  else if operator =? "$lt" then
    ret (clauses ++ [rangeClause field "lt" value])
  else if operator =? "$lte" then
    ret (clauses ++ [rangeClause field "lte" value])
  else if operator =? "$in" then
    ret (clauses ++ [inClause field value])
  else if operator =? "$nin" then
    ret (clauses ++ [mustNotClause [inClause field value]])
  else if operator =? "$exists" then
    if truthy value
    then ret (clauses ++ [existsClause field])
    else ret (clauses ++ [mustNotClause [existsClause field]])
  else if operator =? "$not" then
    notClauses <- self value ;;
    ret (clauses ++ [mustNotClause notClauses])
  else
    warn (UnsupportedOperator operator) ;;
    ret clauses.

(** [convertFieldOperators(field, operators)] *)
Fixpoint convertFieldOperators (field : string) (operators : value)
  {struct operators} : M (list value) :=
  match operators with
  | VObj props =>
      forOf (fieldOperatorCase (convertFieldOperators field) field) props []
  | _ =>
      es <- entries operators ;;
      forOf (fieldOperatorCase (fun _ => throw TypeError) field) es []
  end.

(** [convertFieldQuery(field, value)]: the test for an operator object
    excludes arrays and dates only, so a regular expression goes to
    [convertFieldOperators]. *)
Definition convertFieldQuery (field : string) (val : value)
  : M (list value) :=
  match val with
  | VNull => ret [mustNotClause [existsClause field]]
  | VObj _ | VRegExp _ _ => convertFieldOperators field val
  | VArr _ => ret [inClause field val]
  | _ => ret [equalsClause field val]
  end.

(** The [switch] of [convertLogicalOperator]. *)
Definition convertLogicalOperatorWith (convertQuery : value -> M (list value))
  (operator : string) (val : value) : M (list value) :=
  if operator =? "$and" then
    cs <- callFlatMap convertQuery val ;; ret [mustClause cs]
  else if operator =? "$or" then
    cs <- callFlatMap convertQuery val ;; ret [shouldClause cs]
  else if operator =? "$nor" then
    cs <- callFlatMap convertQuery val ;; ret [mustNotClause cs]
  else
    throw (UnsupportedLogicalOperator operator).

(** The body of the loop of [convertQuery]. *)
Definition queryEntryCase (logical : string -> value -> M (list value))
  (clauses : list value) (entry : string * value) : M (list value) :=
  let '(field, value) := entry in
  if startsWith field "$" then
    cs <- logical field value ;; ret (clauses ++ cs)
  else
    cs <- convertFieldQuery field value ;; ret (clauses ++ cs).

(** [convertQuery(query)] *)
Fixpoint convertQuery (query : value) {struct query} : M (list value) :=
  match query with
  | VObj props =>
      forOf (queryEntryCase (convertLogicalOperatorWith convertQuery)) props []
  | _ =>
      es <- entries query ;;
      forOf (queryEntryCase
               (convertLogicalOperatorWith (fun _ => throw TypeError))) es []
  end.

(** [convertLogicalOperator(operator, value)] *)
Definition convertLogicalOperator : string -> value -> M (list value) :=
  convertLogicalOperatorWith convertQuery.

(** [convertQueryToSearch(query)]: a filter with keys and no clause falls
    through to the [throw]. *)
Definition convertQueryToSearch (this : MQLToAtlasSearchConverter)
  (query : value) : M value :=
  keys <- entries query ;;
  if (List.length keys =? 0)%nat then ret (matchAll this)
  else
    searchClauses <- convertQuery query ;;
    if (List.length searchClauses =? 1)%nat then
      ret (searchStageOf
             (spread [("index", indexName this)]
                     (nth 0 searchClauses VUndefined)))
    else if (1 <? List.length searchClauses)%nat then
      ret (searchStageOf
             [("index", indexName this);
              ("compound", VObj [("must", VArr searchClauses)])])
    else throw UnableToConvert.

(** The body of the loop of [convertAggregationPipeline]. *)
Definition pipelineStage (this : MQLToAtlasSearchConverter)
  (newPipeline : list value) (stage : value) : M (list value) :=
  query <- get stage "$match" ;;
  if truthy query then
    searchStage <- convertQueryToSearch this query ;;
    ret (newPipeline ++ [searchStage])
  else ret (newPipeline ++ [stage]).

(** [convertAggregationPipeline(pipeline)], for an array [pipeline]: one
    stage out for each stage in. *)
Definition convertAggregationPipeline (this : MQLToAtlasSearchConverter)
  (pipeline : list value) : M (list value) :=
  forOf (pipelineStage this) pipeline [].

(** [convertFindQuery(query, options)]: the sort stays a stage. *)
Definition convertFindQuery (this : MQLToAtlasSearchConverter)
  (query : value) (options : Options) : M (list value) :=
  searchStage <- convertQueryToSearch this query ;;
  let pipeline := [searchStage] in
  let pipeline :=
    if truthy (projection options)
    then pipeline ++ [VObj [("$project", projection options)]] else pipeline in
  let pipeline :=
    if truthy (sort options)
    then pipeline ++ [VObj [("$sort", sort options)]] else pipeline in
  let pipeline :=
    if truthy (skip options)
    then pipeline ++ [VObj [("$skip", skip options)]] else pipeline in
  let pipeline :=
    if truthy (limit options)
    then pipeline ++ [VObj [("$limit", limit options)]] else pipeline in
  ret pipeline.

End Demo.




(** A stage of the demo pipeline and what comes out for it. *)
Definition stageConverted (this : MQLToAtlasSearchConverter)
  (stage out : value) : Prop :=
  (keyFalsy "$match" stage /\ out = stage) \/
  (exists query w,
     get stage "$match" = ret query /\ truthy query = true /\
     Demo.convertQueryToSearch this query = (w, Return out)).

(* ================================================================== *)
(** * The monad and the loops *)

Lemma bind_ret_l {A B} (a : A) (f : A -> M B) : bind (ret a) f = f a.
Proof. unfold bind, ret. destruct (f a); reflexivity. Qed.

Lemma bind_quiet {A B} (a : A) (f : A -> M B) : bind ([], Return a) f = f a.
Proof. apply bind_ret_l. Qed.

Lemma bind_quiet_warn {A B} d (a : A) (f : A -> M B) :
  bind ([d], Return a) f = (d :: fst (f a), snd (f a)).
Proof. unfold bind. now destruct (f a). Qed.


Lemma bind_assoc {A B C} (m : M A) (f : A -> M B) (g : B -> M C) :
  bind (bind m f) g = bind m (fun a => bind (f a) g).
Proof.
  destruct m as [w [a | e]]; unfold bind; simpl; trivial.
  destruct (f a) as [w1 [b | e]]; simpl; trivial.
  destruct (g b) as [w2 r]. now rewrite app_assoc.
Qed.

Lemma bind_throw {A B} w e (f : A -> M B) : bind (w, Throw e) f = (w, Throw e).
Proof. reflexivity. Qed.

Lemma bind_return {A B} w (a : A) (f : A -> M B) :
  bind (w, Return a) f = (w ++ fst (f a), snd (f a)).
Proof. unfold bind. now destruct (f a). Qed.

Lemma bind_ext {A B} (m : M A) (f g : A -> M B) :
  (forall a, f a = g a) -> bind m f = bind m g.
Proof.
  intros H. destruct m as [w [a | e]]; unfold bind; trivial. now rewrite H.
Qed.

(** A bind returns only if both halves do. *)
Lemma bind_Return_inv {A B} (m : M A) (f : A -> M B) w b :
  bind m f = (w, Return b) ->
  exists w1 a w2, m = (w1, Return a) /\ f a = (w2, Return b) /\ w = w1 ++ w2.
Proof.
  destruct m as [w1 [a | e]]; unfold bind; [| discriminate].
  destruct (f a) as [w2 r] eqn:E. intros H. inversion H; subst.
  now exists w1, a, w2.
Qed.

Lemma throws_bind_l {A B} (m : M A) (f : A -> M B) :
  throws m -> throws (bind m f).
Proof. intros (w & e & ->). now exists w, e. Qed.

Lemma throws_bind_r {A B} (m : M A) (f : A -> M B) :
  (forall a, throws (f a)) -> throws (bind m f).
Proof.
  intros H. destruct m as [w [a | e]].
  - destruct (H a) as (w' & e & E). exists (w ++ w'), e. unfold bind.
    now rewrite E.
  - now exists w, e.
Qed.

Lemma throws_not_Return {A} (m : M A) w a : throws m -> m <> (w, Return a).
Proof. intros (w' & e & ->). discriminate. Qed.

(** A loop throws as soon as one turn throws whatever the state. *)
Lemma forOf_throws {A S} (body : S -> A -> M S) xs x :
  In x xs -> (forall s, throws (body s x)) -> forall s, throws (forOf body xs s).
Proof.
  intros Hin Hx. induction xs as [| y ys IH]; [easy |]. intros s. simpl.
  destruct Hin as [-> | Hin].
  - apply throws_bind_l, Hx.
  - apply throws_bind_r. intros s'. now apply IH.
Qed.

Lemma flatMap_throws {A B} (f : A -> M (list B)) xs x :
  In x xs -> throws (f x) -> throws (flatMap f xs).
Proof.
  intros Hin Hx. induction xs as [| y ys IH]; [easy |]. simpl.
  destruct Hin as [-> | Hin].
  - now apply throws_bind_l.
  - apply throws_bind_r. intros zs. apply throws_bind_l. now apply IH.
Qed.

Lemma forOf_cons {A S} (body : S -> A -> M S) x xs s :
  forOf body (x :: xs) s = (s' <- body s x ;; forOf body xs s').
Proof. reflexivity. Qed.

Lemma forOf_ext {A S} (body body' : S -> A -> M S) xs :
  Forall (fun x => forall s, body s x = body' s x) xs ->
  forall s, forOf body xs s = forOf body' xs s.
Proof.
  induction 1 as [| x xs Hx _ IH]; intros s; simpl; trivial.
  rewrite Hx. now apply bind_ext.
Qed.

(* ================================================================== *)
(** * Keys of arrays and strings *)

Lemma index_key_digit i : startsWith (index_key i) "$" = false.
Proof. unfold index_key. now destruct (Nat.to_uint i). Qed.

Lemma startsWith_neq k k' :
  startsWith k "$" = false -> startsWith k' "$" = true -> (k =? k') = false.
Proof.
  intros H H'. apply String.eqb_neq. intros ->. congruence.
Qed.

Lemma array_entries_indexKeyed elems i : indexKeyed (array_entries i elems).
Proof.
  revert i. induction elems as [| x xs IH]; intros i; constructor.
  - apply index_key_digit.
  - apply IH.
Qed.

Lemma string_entries_indexKeyed s i : indexKeyed (string_entries i s).
Proof.
  revert i. induction s as [| c s IH]; intros i; constructor.
  - apply index_key_digit.
  - apply IH.
Qed.

(** Only a plain object can have a key that starts with [$]. *)
Lemma own_entries_indexKeyed v :
  isPlainObject v = false -> indexKeyed (own_entries v).
Proof.
  destruct v; simpl; try discriminate; intros _;
    auto using array_entries_indexKeyed, string_entries_indexKeyed;
    constructor.
Qed.

(* ================================================================== *)
(** * The equations of the recursive methods *)

Lemma fieldOperatorCase_self self1 self2 field operators st k v :
  (k =? "$not") = false ->
  fieldOperatorCase self1 field operators st (k, v) =
  fieldOperatorCase self2 field operators st (k, v).
Proof.
  intros H. unfold fieldOperatorCase. destruct st as [clauses handled].
  now rewrite H.
Qed.

Lemma fieldOperatorsLoop_self self1 self2 field operators es :
  indexKeyed es ->
  fieldOperatorsLoop self1 field operators es =
  fieldOperatorsLoop self2 field operators es.
Proof.
  intros H. unfold fieldOperatorsLoop. f_equal.
  apply forOf_ext. eapply Forall_impl; [| exact H].
  intros [k v] Hk s. apply fieldOperatorCase_self.
  now apply startsWith_neq.
Qed.

(** [convertFieldOperators] as the source writes it: the loop over
    [Object.entries(operators)] that calls the method itself for [$not]. *)
Lemma convertFieldOperators_eq field operators :
  convertFieldOperators field operators =
  (es <- entries operators ;;
   fieldOperatorsLoop (convertFieldOperators field) field operators es).
Proof.
  destruct operators; try reflexivity;
    try (simpl; apply bind_ext; intros es; now destruct es).
  - unfold convertFieldOperators, entries. rewrite !bind_ret_l.
    apply fieldOperatorsLoop_self, own_entries_indexKeyed. reflexivity.
  - unfold convertFieldOperators, entries. rewrite !bind_ret_l.
    apply fieldOperatorsLoop_self, own_entries_indexKeyed. reflexivity.
  - unfold convertFieldOperators at 1. unfold entries.
    now rewrite bind_ret_l.
Qed.

Lemma queryEntryCase_logical logical1 logical2 clauses k v :
  startsWith k "$" = false ->
  queryEntryCase logical1 clauses (k, v) = queryEntryCase logical2 clauses (k, v).
Proof. intros H. unfold queryEntryCase. now rewrite H. Qed.

(** [convertQuery] as the source writes it. *)
Lemma convertQuery_eq query :
  convertQuery query =
  (es <- entries query ;; forOf (queryEntryCase convertLogicalOperator) es []).
Proof.
  assert (K : forall v, isPlainObject v = false ->
    forOf (queryEntryCase
             (convertLogicalOperatorWith (fun _ => throw TypeError)))
          (own_entries v) [] =
    forOf (queryEntryCase convertLogicalOperator) (own_entries v) []).
  { intros v Hv. apply forOf_ext.
    eapply Forall_impl; [| apply own_entries_indexKeyed, Hv].
    intros [k x] Hk s. now apply queryEntryCase_logical. }
  destruct query; try reflexivity;
    try (unfold convertQuery, entries; rewrite !bind_ret_l; now apply K).
  unfold convertQuery at 1. unfold entries. now rewrite bind_ret_l.
Qed.

(* ================================================================== *)
(** * Null literals and [$eq: null] *)

Lemma findQuery_null_literal this f :
  startsWith f "$" = false ->
  convertFindQuery this (VObj [(f, VNull)]) noOptions =
    ([], Return [searchStageOf [("index", indexName this);
                                ("compound",
                                 VObj [("should",
                                        VArr [equalsClause f VNull;
                                              mustNotClause [existsClause f]]);
                                       ("minimumShouldMatch", VNum 1)])]]).
Proof.
  intros Hf. unfold convertFindQuery, convertQueryToSearch. simpl.
  unfold queryEntryCase. rewrite Hf. reflexivity.
Qed.

(** C1: for every field name [f] (a key that does not start with [$]),
    the filter [{f: null}] translates to one [$search] stage whose clause is
    [compound: { should: [equals null on f, compound mustNot [exists f]],
    minimumShouldMatch: 1 }]: two branches, both on path [f], always together.
    [convertFieldQuery] itself builds that clause for any [f]. *)
Theorem null_literal_two_branches this f :
  startsWith f "$" = false ->
  convertFieldQuery f VNull =
    ([], Return
       [VObj [("compound",
               VObj [("should",
                      VArr [VObj [("equals",
                                   VObj [("path", VStr f); ("value", VNull)])];
                            VObj [("compound",
                                   VObj [("mustNot",
                                          VArr [VObj [("exists",
                                                       VObj [("path", VStr f)])]])])]]);
                     ("minimumShouldMatch", VNum 1)])]]) /\
  convertFindQuery this (VObj [(f, VNull)]) noOptions =
    ([], Return
       [VObj [("$search",
               VObj [("index", indexName this);
                     ("compound",
                      VObj [("should",
                             VArr [equalsClause f VNull;
                                   mustNotClause [existsClause f]]);
                            ("minimumShouldMatch", VNum 1)])])]]).
Proof.
  intros Hf. split; [reflexivity |]. now apply findQuery_null_literal.
Qed.

Lemma null_literal_two_branches_witness :
  startsWith "deletedAt" "$" = false /\
  convertFindQuery (constructor (VStr "products_search"))
    (VObj [("deletedAt", VNull)]) noOptions =
    ([], Return
       [VObj [("$search",
               VObj [("index", VStr "products_search");
                     ("compound",
                      VObj [("should",
                             VArr [equalsClause "deletedAt" VNull;
                                   mustNotClause [existsClause "deletedAt"]]);
                            ("minimumShouldMatch", VNum 1)])])]]).
Proof.
  split; [reflexivity |].
  apply (null_literal_two_branches (constructor (VStr "products_search"))
           "deletedAt").
  reflexivity.
Defined.

(** C10: the two-branch treatment is for the literal [null] only.  For every
    field name [f], [{f: {$eq: null}}] translates to the single clause
    [equals: {path: f, value: null}], with no branch for a missing field,
    whereas [{f: null}] translates to the compound of two branches, [equals]
    with [null] or [mustNot] of [exists]; so the two requests differ. *)
Theorem eq_null_single_clause this f :
  startsWith f "$" = false ->
  convertFieldOperators f (VObj [("$eq", VNull)]) =
    ([], Return [VObj [("equals", VObj [("path", VStr f); ("value", VNull)])]]) /\
  convertFindQuery this (VObj [(f, VObj [("$eq", VNull)])]) noOptions =
    ([], Return
       [VObj [("$search",
               VObj [("index", indexName this);
                     ("equals", VObj [("path", VStr f); ("value", VNull)])])]]) /\
  convertFieldQuery f VNull =
    ([], Return
       [VObj [("compound",
               VObj [("should",
                      VArr [VObj [("equals",
                                   VObj [("path", VStr f); ("value", VNull)])];
                            VObj [("compound",
                                   VObj [("mustNot",
                                          VArr [VObj [("exists",
                                                       VObj [("path", VStr f)])]])])]]);
                     ("minimumShouldMatch", VNum 1)])]]) /\
  convertFindQuery this (VObj [(f, VNull)]) noOptions =
    ([], Return
       [VObj [("$search",
               VObj [("index", indexName this);
                     ("compound",
                      VObj [("should",
                             VArr [VObj [("equals",
                                          VObj [("path", VStr f);
                                                ("value", VNull)])];
                                   VObj [("compound",
                                          VObj [("mustNot",
                                                 VArr [VObj [("exists",
                                                              VObj [("path",
                                                                     VStr f)])]])])]]);
                            ("minimumShouldMatch", VNum 1)])])]]) /\
  convertFindQuery this (VObj [(f, VObj [("$eq", VNull)])]) noOptions <>
  convertFindQuery this (VObj [(f, VNull)]) noOptions.
Proof.
  intros Hf.
  assert (E : convertFindQuery this (VObj [(f, VObj [("$eq", VNull)])]) noOptions =
    ([], Return
       [VObj [("$search",
               VObj [("index", indexName this);
                     ("equals", VObj [("path", VStr f); ("value", VNull)])])]])).
  { unfold convertFindQuery, convertQueryToSearch. simpl.
    unfold queryEntryCase. rewrite Hf. reflexivity. }
  repeat split; [exact E | exact (findQuery_null_literal this f Hf) |].
  rewrite E, (findQuery_null_literal this f Hf). discriminate.
Qed.

Lemma eq_null_single_clause_witness :
  startsWith "deletedAt" "$" = false /\
  convertFindQuery (constructor VUndefined)
    (VObj [("deletedAt", VObj [("$eq", VNull)])]) noOptions =
    ([], Return
       [VObj [("$search",
               VObj [("index", VStr "default");
                     ("equals",
                      VObj [("path", VStr "deletedAt"); ("value", VNull)])])]]).
Proof.
  split; [reflexivity |].
  apply (eq_null_single_clause (constructor VUndefined) "deletedAt").
  reflexivity.
Defined.

(* ================================================================== *)
(** * Logical keywords *)

Lemma convertQuery_object props :
  convertQuery (VObj props) =
  forOf (queryEntryCase convertLogicalOperator) props [].
Proof. reflexivity. Qed.

(** The two [throw] statements of [convertLogicalOperator], for an offending
    key that is the first key of the filter. *)
Lemma top_level_not_error val rest :
  convertQuery (VObj (("$not", val) :: rest)) = ([], Throw NotAtFieldLevel).
Proof. reflexivity. Qed.

Lemma unknown_logical_error operator val rest :
  startsWith operator "$" = true ->
  ~ In operator ["$and"; "$or"; "$nor"; "$not"] ->
  convertQuery (VObj ((operator, val) :: rest)) =
  ([], Throw (UnsupportedLogicalOperator operator)).
Proof.
  intros Hp Hn. rewrite convertQuery_object. simpl. unfold queryEntryCase.
  rewrite Hp. unfold convertLogicalOperator, convertLogicalOperatorWith.
  assert (forall s, In s ["$and"; "$or"; "$nor"; "$not"] -> (operator =? s) = false) as K.
  { intros s Hs. apply String.eqb_neq. intros ->. now apply Hn. }
  rewrite !K by (simpl; tauto). reflexivity.
Qed.

Lemma logical_case_throws operator val clauses :
  startsWith operator "$" = true ->
  operator <> "$and" -> operator <> "$or" -> operator <> "$nor" ->
  throws (queryEntryCase convertLogicalOperator clauses (operator, val)).
Proof.
  intros Hp H1 H2 H3. unfold queryEntryCase. rewrite Hp.
  apply throws_bind_l. unfold convertLogicalOperator, convertLogicalOperatorWith.
  apply String.eqb_neq in H1, H2, H3. rewrite H1, H2, H3.
  destruct (operator =? "$not"); eexists _, _; reflexivity.
Qed.

Lemma junction_case_throws operator subs clauses :
  operator = "$and" \/ operator = "$or" \/ operator = "$nor" ->
  throws (flatMap convertQuery subs) ->
  throws (queryEntryCase convertLogicalOperator clauses (operator, VArr subs)).
Proof.
  intros Hop Hsub.
  destruct Hop as [-> | [-> | ->]];
    apply throws_bind_l; apply throws_bind_l; exact Hsub.
Qed.

Lemma unsupported_logical_throws q :
  hasUnsupportedLogical q -> throws (convertQuery q).
Proof.
  induction 1 as [props operator val Hin Hp H1 H2 H3
                 | props operator subs sub Hin Hop Hsub _ IH];
    rewrite convertQuery_object.
  - apply (forOf_throws _ _ _ Hin). intros s.
    now apply logical_case_throws.
  - apply (forOf_throws _ _ _ Hin). intros s.
    apply junction_case_throws; trivial.
    now apply (flatMap_throws _ _ _ Hsub).
Qed.

Lemma unsupported_logical_nonempty q :
  hasUnsupportedLogical q -> exists kv props, q = VObj (kv :: props).
Proof.
  destruct 1 as [[| kv props] ? ? Hin | [| kv props] ? ? ? Hin];
    try easy; now exists kv, props.
Qed.

Lemma convertQueryToSearch_throws this q :
  (exists kv props, q = VObj (kv :: props)) ->
  throws (convertQuery q) -> throws (convertQueryToSearch this q).
Proof.
  intros (kv & props & ->) H. unfold convertQueryToSearch, entries.
  rewrite bind_ret_l. simpl List.length. cbv iota beta match.
  change ((S (List.length props) =? 0)%nat) with false. cbv iota.
  now apply throws_bind_l.
Qed.

(** C4: a Filter Expression with [$not] or with any other [$]-key than
    [$and], [$or], [$nor] at a logical level (its own keys, or those of a
    member of an [$and]/[$or]/[$nor] list, at any depth) is not translated:
    [convertQuery] throws, and so do [convertQueryToSearch],
    [convertFindQuery] with any options, and [convertAggregationPipeline] on a
    pipeline that starts with this filter as its [$match] stage.  (With the
    offending key first, the errors are those of [top_level_not_error] and
    [unknown_logical_error].) *)
Theorem unsupported_logical_is_fatal this q options :
  hasUnsupportedLogical q ->
  throws (convertQuery q) /\
  throws (convertQueryToSearch this q) /\
  throws (convertFindQuery this q options) /\
  forall rest,
    throws (convertAggregationPipeline this
              (VArr (VObj [("$match", q)] :: rest)) options).
Proof.
  intros H.
  assert (Hq := unsupported_logical_throws q H).
  assert (Hs := convertQueryToSearch_throws this q
                  (unsupported_logical_nonempty q H) Hq).
  assert (Hw : forall o, throws (convertQueryToSearchWithOptions this q o)).
  { intros o. now apply throws_bind_l. }
  repeat split; trivial.
  - unfold convertFindQuery. destruct (truthy (sort options));
      now apply throws_bind_l.
  - intros rest. destruct (unsupported_logical_nonempty q H) as (kv & props & ->).
    unfold convertAggregationPipeline. simpl.
    rewrite bind_ret_l. simpl. apply throws_bind_l.
    unfold optimizePipelineSequence. simpl. rewrite bind_ret_l. simpl.
    apply throws_bind_r. intros st. apply throws_bind_r. intros sortSpec.
    apply throws_bind_l, Hw.
Qed.

Lemma unsupported_logical_is_fatal_witness :
  hasUnsupportedLogical
    (VObj [("$and", VArr [VObj [("status", VStr "published")];
                          VObj [("$not", VObj [("price", VNum 5)])]])]) /\
  throws (convertFindQuery (constructor (VStr "default"))
            (VObj [("$and", VArr [VObj [("status", VStr "published")];
                                  VObj [("$not", VObj [("price", VNum 5)])]])])
            noOptions).
Proof.
  assert (H : hasUnsupportedLogical
    (VObj [("$and", VArr [VObj [("status", VStr "published")];
                          VObj [("$not", VObj [("price", VNum 5)])]])])).
  { eapply unsupported_below with (operator := "$and").
    - left. reflexivity.
    - left. reflexivity.
    - right. left. reflexivity.
    - eapply unsupported_here with (operator := "$not").
      + left. reflexivity.
      + reflexivity.
      + discriminate.
      + discriminate.
      + discriminate. }
  split; [exact H |].
  exact (proj1 (proj2 (proj2
    (unsupported_logical_is_fatal (constructor (VStr "default")) _ noOptions H)))).
Defined.

(* ================================================================== *)
(** * The operator loop *)

Lemma returns_bind {A B} (m : M A) (f : A -> M B) :
  returns m -> (forall a, returns (f a)) -> returns (bind m f).
Proof.
  intros (w & a & ->) H. destruct (H a) as (w' & b & E).
  exists (w ++ w'), b. unfold bind. now rewrite E.
Qed.

Lemma returns_ret {A} (a : A) : returns (ret a).
Proof. now exists [], a. Qed.

Lemma forOf_returns {A S} (body : S -> A -> M S) xs :
  Forall (fun x => forall s, returns (body s x)) xs ->
  forall s, returns (forOf body xs s).
Proof.
  induction 1 as [| x xs Hx _ IH]; intros s; simpl.
  - apply returns_ret.
  - apply returns_bind; auto.
Qed.

(** The [switch]: a case split on the operator that leaves the literal key
    in place of the variable. *)
Ltac switch_on k :=
  repeat match goal with
    | |- context [String.eqb k ?s] =>
        let E := fresh "E" in
        destruct (String.eqb k s) eqn:E;
        [apply String.eqb_eq in E; subst k |]
    end.

(** Inversion of a computation known to return. *)
Ltac inv_return H :=
  lazymatch type of H with
  | bind _ _ = (_, Return _) =>
      let w1 := fresh "w" in
      let a := fresh "a" in
      let w2 := fresh "w" in
      let H1 := fresh "H" in
      let H2 := fresh "H" in
      apply bind_Return_inv in H as (w1 & a & w2 & H1 & H2 & ->);
      inv_return H1; inv_return H2
  | ret _ = (_, Return _) => inversion H; subst; clear H
  | warn _ = (_, Return _) => inversion H; subst; clear H
  | (_, Return _) = (_, Return _) => inversion H; subst; clear H
  | throw _ = (_, Return _) => discriminate H
  | (_, Throw _) = (_, Return _) => discriminate H
  | (if ?c then _ else _) = (_, Return _) =>
      let C := fresh "C" in destruct c eqn:C; inv_return H
  | _ => idtac
  end.

Lemma unrecognized_cases u s :
  unrecognized u = true -> In s operatorCases -> (u =? s) = false.
Proof.
  unfold unrecognized. rewrite negb_true_iff. intros H Hs.
  destruct (u =? s) eqn:E; trivial.
  rewrite <- H. symmetry. apply existsb_exists. now exists s.
Qed.

(** The [default] branch: one warning, nothing else changes. *)
Lemma fieldOperatorCase_default self field operators st u x :
  unrecognized u = true ->
  fieldOperatorCase self field operators st (u, x) =
  ([UnsupportedOperator u], Return st).
Proof.
  intros H. unfold fieldOperatorCase. destruct st as [clauses handled].
  rewrite !(unrecognized_cases u) by (trivial; simpl; tauto).
  reflexivity.
Qed.

(** A turn of the loop returns if the call for [$not] does. *)
Lemma fieldOperatorCase_returns self field props st k v :
  ((k =? "$not") = true -> returns (self v)) ->
  returns (fieldOperatorCase self field (VObj props) st (k, v)).
Proof.
  intros H. unfold fieldOperatorCase. destruct st as [clauses handled].
  switch_on k; try apply returns_ret.
  - destruct (truthy v); apply returns_ret.
  - destruct handled; simpl; [apply returns_ret |].
    unfold get. rewrite bind_ret_l.
    destruct (typeof_string v); apply returns_ret.
  - apply returns_bind; [now apply H | intros; apply returns_ret].
  - apply returns_bind; [now eexists _, _ | intros; apply returns_ret].
Qed.

(** The conversion of an Operator Set never throws. *)
Lemma operatorSet_returns field v :
  isOperatorSet v = true -> returns (convertFieldOperators field v).
Proof.
  induction v as [| | | | | | | | | props IH] using value_nested_ind;
    try discriminate.
  intros Hset. simpl in Hset. rewrite forallb_forall in Hset.
  simpl. unfold fieldOperatorsLoop.
  apply returns_bind; [| intros; apply returns_ret].
  apply forOf_returns. rewrite Forall_forall in IH |- *.
  intros [k x] Hin s. apply fieldOperatorCase_returns.
  intros Hk. apply (IH _ Hin). specialize (Hset _ Hin). simpl in Hset.
  now rewrite Hk in Hset.
Qed.

(* ================================================================== *)
(** * Range bounds *)

(** One turn of the loop adds a range clause exactly for a range key, and
    that clause holds the one bound of the key. *)
Lemma range_step self field operators clauses handled k v w clauses' handled' :
  fieldOperatorCase self field operators (clauses, handled) (k, v) =
    (w, Return (clauses', handled')) ->
  filter (isKind "range") clauses' =
  filter (isKind "range") clauses ++
  (if isRangeKey k then [rangeClauseOf field (k, v)] else []).
Proof.
  unfold fieldOperatorCase, isRangeKey, existsb.
  switch_on k; simpl; intros H; inv_return H;
    rewrite ?filter_app, ?app_nil_r; reflexivity.
Qed.

Lemma range_loop self field operators es :
  forall clauses handled w clauses' handled',
  forOf (fieldOperatorCase self field operators) es (clauses, handled) =
    (w, Return (clauses', handled')) ->
  filter (isKind "range") clauses' =
  filter (isKind "range") clauses ++
  map (rangeClauseOf field) (filter (fun kv => isRangeKey (fst kv)) es).
Proof.
  induction es as [| [k v] es IH]; intros clauses handled w clauses' handled' H.
  - simpl in H. inv_return H. now rewrite app_nil_r.
  - simpl in H.
    apply bind_Return_inv in H as (w1 & [clauses1 handled1] & w2 & H1 & H2 & ->).
    rewrite (IH _ _ _ _ _ H2), (range_step _ _ _ _ _ _ _ _ _ _ H1).
    rewrite <- app_assoc. f_equal. simpl.
    now destruct (isRangeKey k).
Qed.

(** An Operator Set of range keys only: its conversion is the list of the
    range clauses, with no warning. *)
Lemma pure_range_loop self field operators es :
  forallb (fun kv => isRangeKey (fst kv)) es = true ->
  forall clauses handled,
  forOf (fieldOperatorCase self field operators) es (clauses, handled) =
  ([], Return (clauses ++ map (rangeClauseOf field) es, handled)).
Proof.
  induction es as [| [k v] es IH]; intros H clauses handled.
  - simpl. now rewrite app_nil_r.
  - rewrite forOf_cons. simpl in H. apply andb_true_iff in H as [Hk H].
    assert (E : fieldOperatorCase self field operators (clauses, handled) (k, v) =
                ret (clauses ++ [rangeClauseOf field (k, v)], handled)).
    { revert Hk. unfold isRangeKey, existsb, fieldOperatorCase.
      switch_on k; try discriminate; reflexivity. }
    rewrite E, bind_ret_l, IH by exact H. simpl. now rewrite <- app_assoc.
Qed.

Lemma pure_range_set field props :
  forallb (fun kv => isRangeKey (fst kv)) props = true ->
  convertFieldOperators field (VObj props) =
  ([], Return (map (rangeClauseOf field) props)).
Proof.
  intros H. simpl. unfold fieldOperatorsLoop.
  now rewrite (pure_range_loop _ _ _ _ H).
Qed.

(** A filter on one field whose conversion gives two clauses or more: the
    clauses go under [compound.must]. *)
Lemma findQuery_field_many this f v w clauses :
  startsWith f "$" = false ->
  convertFieldQuery f v = (w, Return clauses) ->
  2 <= List.length clauses ->
  convertFindQuery this (VObj [(f, v)]) noOptions =
    (w, Return [searchStageOf [("index", indexName this);
                               ("compound", VObj [("must", VArr clauses)])]]).
Proof.
  intros Hf Hv Hlen. unfold convertFindQuery, convertQueryToSearch. simpl.
  rewrite bind_ret_l. simpl. rewrite Hf, Hv.
  destruct clauses as [| c1 [| c2 clauses]]; simpl in Hlen; try lia.
  unfold bind, ret. simpl. now rewrite !app_nil_r.
Qed.

(** C6: in an Operator Set on field [f] with two range keys or more (among
    [$gt], [$gte], [$lt], [$lte]; other keys may be present), the range
    clauses of the conversion are one per range key, in the order of the
    keys, each of them [range: {path: f, <bound>: value}] with the one bound
    of its key; and the translation of [{f: <the set>}] puts the clauses of
    the conversion under [compound.must] of its [$search] stage. *)
Theorem range_bounds_separate this f props :
  startsWith f "$" = false ->
  isOperatorSet (VObj props) = true ->
  2 <= List.length (filter (fun kv => isRangeKey (fst kv)) props) ->
  exists w clauses,
    convertFieldOperators f (VObj props) = (w, Return clauses) /\
    filter (isKind "range") clauses =
      map (fun kv => VObj [("range", VObj [("path", VStr f);
                                           (rangeBound (fst kv), snd kv)])])
          (filter (fun kv => isRangeKey (fst kv)) props) /\
    convertFindQuery this (VObj [(f, VObj props)]) noOptions =
      (w, Return [VObj [("$search",
                         VObj [("index", indexName this);
                               ("compound",
                                VObj [("must", VArr clauses)])])]]).
Proof.
  intros Hf Hset Hlen.
  destruct (operatorSet_returns f _ Hset) as (w & clauses & E).
  exists w, clauses. split; [exact E |].
  assert (R : filter (isKind "range") clauses =
              map (rangeClauseOf f)
                  (filter (fun kv => isRangeKey (fst kv)) props)).
  { simpl in E. unfold fieldOperatorsLoop in E.
    apply bind_Return_inv in E as (w1 & [cl handled] & w2 & H1 & H2 & ->).
    inv_return H2. now apply range_loop in H1. }
  split; [exact R |].
  apply findQuery_field_many; trivial.
  apply Nat.le_trans with (List.length (filter (isKind "range") clauses)).
  - now rewrite R, length_map.
  - apply filter_length_le.
Qed.

Lemma range_bounds_separate_witness :
  startsWith "age" "$" = false /\
  isOperatorSet (VObj [("$gte", VNum 18); ("$lt", VNum 65)]) = true /\
  exists w clauses,
    convertFieldOperators "age" (VObj [("$gte", VNum 18); ("$lt", VNum 65)]) =
      (w, Return clauses) /\
    filter (isKind "range") clauses =
      [VObj [("range", VObj [("path", VStr "age"); ("gte", VNum 18)])];
       VObj [("range", VObj [("path", VStr "age"); ("lt", VNum 65)])]] /\
    convertFindQuery (constructor (VStr "default"))
      (VObj [("age", VObj [("$gte", VNum 18); ("$lt", VNum 65)])]) noOptions =
      (w, Return [VObj [("$search",
                         VObj [("index", VStr "default");
                               ("compound",
                                VObj [("must", VArr clauses)])])]]).
Proof.
  split; [reflexivity |]. split; [reflexivity |].
  apply (range_bounds_separate (constructor (VStr "default")) "age"
           [("$gte", VNum 18); ("$lt", VNum 65)]).
  - reflexivity.
  - reflexivity.
  - simpl. lia.
Defined.

(** The example of the specification, in full. *)
Example range_example :
  convertFindQuery (constructor (VStr "default"))
    (VObj [("age", VObj [("$gte", VNum 18); ("$lt", VNum 65)])]) noOptions =
  ([], Return
     [VObj [("$search",
             VObj [("index", VStr "default");
                   ("compound",
                    VObj [("must",
                           VArr [VObj [("range", VObj [("path", VStr "age");
                                                       ("gte", VNum 18)])];
                                 VObj [("range", VObj [("path", VStr "age");
                                                       ("lt", VNum 65)])]])])])]]).
Proof. reflexivity. Qed.

(* ================================================================== *)
(** * Pattern keys *)

(** One turn of the loop on a [$regex] key: the first one adds the pattern
    clause if the pattern is a string, and sets the flag; with the flag set
    nothing happens.  Other keys add no pattern clause. *)
Lemma regex_step self field props clauses handled k v w clauses' handled' :
  fieldOperatorCase self field (VObj props) (clauses, handled) (k, v) =
    (w, Return (clauses', handled')) ->
  handled' = handled || (k =? "$regex") /\
  filter (isKind "regex") clauses' =
  filter (isKind "regex") clauses ++
  pendingRegex field (optionsOf props) handled [(k, v)].
Proof.
  unfold fieldOperatorCase, pendingRegex, lookup, get.
  destruct handled; switch_on k; simpl; rewrite ?bind_ret_l;
    fold (optionsOf props); intros H;
    try match type of H with
        | context [typeof_string ?x] => destruct x; simpl in H
        end;
    inv_return H; rewrite ?filter_app, ?app_nil_r; simpl;
    rewrite ?app_nil_r; (split; [reflexivity |]); try reflexivity.
  do 2 f_equal. unfold regexClause, or_else.
  now destruct (truthy (optionsOf props)) eqn:T; simpl; rewrite ?T.
Qed.

Lemma regex_loop self field props es :
  forall clauses handled w clauses' handled',
  forOf (fieldOperatorCase self field (VObj props)) es (clauses, handled) =
    (w, Return (clauses', handled')) ->
  filter (isKind "regex") clauses' =
  filter (isKind "regex") clauses ++
  pendingRegex field (optionsOf props) handled es.
Proof.
  induction es as [| [k v] es IH]; intros clauses handled w clauses' handled' H.
  - simpl in H. inv_return H. unfold pendingRegex. simpl.
    destruct handled'; now rewrite app_nil_r.
  - rewrite forOf_cons in H.
    apply bind_Return_inv in H as (w1 & [clauses1 handled1] & w2 & H1 & H2 & ->).
    apply regex_step in H1 as [-> H1]. rewrite (IH _ _ _ _ _ H2), H1.
    rewrite <- app_assoc. f_equal. unfold pendingRegex. simpl.
    destruct handled; simpl; trivial.
    destruct (k =? "$regex"); simpl; [now rewrite app_nil_r | reflexivity].
Qed.




(** The flags key alone does nothing, before or after the pattern key. *)
Lemma options_case self field operators st v :
  fieldOperatorCase self field operators st ("$options", v) = ret st.
Proof. now destruct st. Qed.




(* ================================================================== *)
(** * Recognized and unrecognized keys *)

(** A turn on a [case] label prints nothing, if the call for [$not] prints
    nothing. *)
Lemma recognized_case_quiet self field props st k v :
  unrecognized k = false ->
  ((k =? "$not") = true -> exists cs, self v = ([], Return cs)) ->
  exists st', fieldOperatorCase self field (VObj props) st (k, v) =
              ([], Return st').
Proof.
  unfold unrecognized, operatorCases, existsb, fieldOperatorCase, get.
  destruct st as [clauses handled].
  switch_on k; simpl; intros Hk Hnot; try discriminate;
    try (eexists; reflexivity).
  - destruct (truthy v); eexists; reflexivity.
  - destruct handled; simpl; [eexists; reflexivity |].
    rewrite bind_ret_l. destruct (typeof_string v); eexists; reflexivity.
  - destruct (Hnot eq_refl) as [cs ->]. eexists. reflexivity.
Qed.

Lemma quiet_loop {A S} (body : S -> A -> M S) xs :
  Forall (fun x => forall s, exists s', body s x = ([], Return s')) xs ->
  forall s, exists s', forOf body xs s = ([], Return s').
Proof.
  induction 1 as [| x xs Hx _ IH]; intros s.
  - now exists s.
  - rewrite forOf_cons. destruct (Hx s) as [s1 ->].
    destruct (IH s1) as [s2 E]. exists s2. unfold bind. now rewrite E.
Qed.

(** An Operator Set with recognized keys only converts without a warning
    and without an exception. *)
Lemma allRecognized_quiet field v :
  allRecognized v = true ->
  exists cs, convertFieldOperators field v = ([], Return cs).
Proof.
  induction v as [| | | | | | | | | props IH] using value_nested_ind;
    try discriminate.
  intros Hall. simpl in Hall. rewrite forallb_forall in Hall.
  simpl. unfold fieldOperatorsLoop.
  destruct (quiet_loop (fieldOperatorCase (convertFieldOperators field) field
                          (VObj props)) props) with (s := (@nil value, false))
    as [[cs handled] E].
  - rewrite Forall_forall in IH |- *. intros [k x] Hin s.
    specialize (Hall _ Hin). simpl in Hall.
    apply andb_true_iff in Hall as [Hk Hx]. apply negb_true_iff in Hk.
    apply recognized_case_quiet; trivial.
    intros Hnot. apply (IH _ Hin). now rewrite Hnot in Hx.
  - exists cs. now rewrite E.
Qed.

(** The turn of a key that [yieldsOneClause]: one clause more, no warning.
    For [$regex] the operators object is one without flags. *)
Lemma one_clause_step field k v :
  yieldsOneClause k v = true ->
  exists clause, forall props clauses,
    ((k =? "$regex") = true -> optionsOf props = VUndefined) ->
    exists handled,
      fieldOperatorCase (convertFieldOperators field) field (VObj props)
        (clauses, false) (k, v) = ([], Return (clauses ++ [clause], handled)).
Proof.
  unfold yieldsOneClause, existsb, fieldOperatorCase, get.
  switch_on k; simpl; intros Hy; try discriminate;
    try (eexists; intros; eexists; reflexivity).
  - destruct (truthy v); eexists; intros; eexists; reflexivity.
  - rewrite Hy. eexists. intros props clauses Ho. eexists.
    rewrite bind_ret_l. fold (optionsOf props). rewrite (Ho eq_refl).
    reflexivity.
  - destruct (allRecognized_quiet field v Hy) as [cs ->].
    eexists. intros. eexists. reflexivity.
Qed.

(** C8 (as amended): an Operator Set with two keys, one that
    [yieldsOneClause] (any of [$eq], [$ne], [$gt], [$gte], [$lt], [$lte],
    [$in], [$nin], [$exists]; [$regex] with a string pattern; [$not] around an
    Operator Set whose keys are all recognized) and one outside the [switch],
    converts to exactly one clause with exactly one warning, the one for the
    unrecognized key, and without an exception, in either order of the
    keys. *)
Theorem one_recognized_one_unrecognized f k v u x :
  yieldsOneClause k v = true ->
  unrecognized u = true ->
  exists clause,
    convertFieldOperators f (VObj [(k, v); (u, x)]) =
      ([UnsupportedOperator u], Return [clause]) /\
    convertFieldOperators f (VObj [(u, x); (k, v)]) =
      ([UnsupportedOperator u], Return [clause]).
Proof.
  intros Hy Hu.
  destruct (one_clause_step f k v Hy) as [clause Hstep].
  assert (Hopt : forall props, In props [[(k, v); (u, x)]; [(u, x); (k, v)]] ->
                 (k =? "$regex") = true -> optionsOf props = VUndefined).
  { intros props Hp Hk. apply String.eqb_eq in Hk. subst k.
    assert (Ho := unrecognized_cases u "$options" Hu).
    unfold optionsOf.
    destruct Hp as [<- | [<- | []]]; simpl; rewrite Ho; simpl; tauto. }
  exists clause. split.
  - destruct (Hstep [(k, v); (u, x)] [] (Hopt _ (or_introl eq_refl)))
      as [handled E].
    simpl. unfold fieldOperatorsLoop.
    rewrite forOf_cons, E, bind_quiet, forOf_cons.
    rewrite fieldOperatorCase_default by exact Hu. reflexivity.
  - destruct (Hstep [(u, x); (k, v)] []
                (Hopt _ (or_intror (or_introl eq_refl)))) as [handled E].
    simpl. unfold fieldOperatorsLoop. rewrite forOf_cons.
    rewrite fieldOperatorCase_default by exact Hu.
    unfold bind at 2. rewrite forOf_cons, E. reflexivity.
Qed.

Lemma one_recognized_one_unrecognized_witness :
  yieldsOneClause "$gte" (VNum 18) = true /\
  unrecognized "$size" = true /\
  exists clause,
    convertFieldOperators "age" (VObj [("$gte", VNum 18); ("$size", VNum 2)]) =
      ([UnsupportedOperator "$size"], Return [clause]) /\
    convertFieldOperators "age" (VObj [("$size", VNum 2); ("$gte", VNum 18)]) =
      ([UnsupportedOperator "$size"], Return [clause]).
Proof.
  split; [reflexivity |]. split; [reflexivity |].
  exact (one_recognized_one_unrecognized "age" "$gte" (VNum 18) "$size"
           (VNum 2) eq_refl eq_refl).
Defined.

(** C8 as stated fails for two recognized keys.  A [$regex] key whose
    pattern is a regular expression object gives no clause at all, so the
    set converts to zero clauses; a [$not] key around a set with an
    unrecognized key gives one clause and a warning of its own, so the set
    prints two warnings. *)
Lemma recognized_key_miscounts :
  (unrecognized "$regex" = false /\ unrecognized "$size" = true /\
   convertFieldOperators "name"
     (VObj [("$regex", VRegExp "^A" ""); ("$size", VNum 2)]) =
   ([UnsupportedOperator "$size"], Return [])) /\
  (unrecognized "$not" = false /\ unrecognized "$all" = true /\
   convertFieldOperators "tags"
     (VObj [("$not", VObj [("$size", VNum 2)]); ("$all", VArr [])]) =
   ([UnsupportedOperator "$size"; UnsupportedOperator "$all"],
    Return [VObj [("compound", VObj [("mustNot", VArr [])])]])).
Proof. repeat split; reflexivity. Qed.

(* ================================================================== *)
(** * The index of the requests *)

(** A property of the loop variables that every turn keeps holds at the
    end of the loop. *)
Lemma forOf_invariant {A S} (I : S -> Prop) (body : S -> A -> M S) xs :
  (forall s x w s', body s x = (w, Return s') -> I s -> I s') ->
  forall s w s', forOf body xs s = (w, Return s') -> I s -> I s'.
Proof.
  intros Hbody. induction xs as [| x xs IH]; intros s w s' H Hs.
  - simpl in H. inv_return H. exact Hs.
  - rewrite forOf_cons in H.
    apply bind_Return_inv in H as (w1 & s1 & w2 & H1 & H2 & ->).
    eapply IH; [exact H2 |]. eapply Hbody; eauto.
Qed.

Lemma allClauses_snoc clauses clause :
  allClauses clauses -> isSearchClause clause = true ->
  allClauses (clauses ++ [clause]).
Proof.
  unfold allClauses. intros H Hc. rewrite forallb_app, H. simpl.
  now rewrite Hc.
Qed.

Lemma allClauses_app clauses clauses' :
  allClauses clauses -> allClauses clauses' -> allClauses (clauses ++ clauses').
Proof. unfold allClauses. intros H H'. now rewrite forallb_app, H, H'. Qed.

(** Every object the operator loop pushes is a Search Clause. *)
Lemma fieldOperatorCase_clauses self field operators st k v w st' :
  fieldOperatorCase self field operators st (k, v) = (w, Return st') ->
  allClauses (fst st) -> allClauses (fst st').
Proof.
  unfold fieldOperatorCase. destruct st as [clauses handled].
  intros H Hc. inv_return H; simpl; trivial;
    now apply allClauses_snoc.
Qed.

Lemma convertFieldOperators_clauses field operators w clauses :
  convertFieldOperators field operators = (w, Return clauses) ->
  allClauses clauses.
Proof.
  rewrite convertFieldOperators_eq. unfold fieldOperatorsLoop. intros H.
  apply bind_Return_inv in H as (w1 & es & w2 & _ & H & ->).
  apply bind_Return_inv in H as (w3 & st & w4 & H & H' & ->).
  inv_return H'.
  eapply (forOf_invariant (fun st => allClauses (fst st)));
    [| exact H | reflexivity].
  intros s [k v] w' s'. apply fieldOperatorCase_clauses.
Qed.

Lemma convertFieldQuery_clauses field val w clauses :
  convertFieldQuery field val = (w, Return clauses) -> allClauses clauses.
Proof.
  unfold convertFieldQuery.
  destruct val; try (intros H; inv_return H; reflexivity).
  apply convertFieldOperators_clauses.
Qed.

Lemma queryEntryCase_clauses clauses k v w clauses' :
  queryEntryCase convertLogicalOperator clauses (k, v) = (w, Return clauses') ->
  allClauses clauses -> allClauses clauses'.
Proof.
  unfold queryEntryCase, convertLogicalOperator, convertLogicalOperatorWith.
  intros H Hc. inv_return H; try (now apply allClauses_snoc).
  apply allClauses_app; trivial.
  eapply convertFieldQuery_clauses; eassumption.
Qed.

Lemma convertQuery_clauses query w clauses :
  convertQuery query = (w, Return clauses) -> allClauses clauses.
Proof.
  rewrite convertQuery_eq. intros H.
  apply bind_Return_inv in H as (w1 & es & w2 & _ & H & ->).
  eapply (forOf_invariant allClauses); [| exact H | reflexivity].
  intros s [k v] w' s'. apply queryEntryCase_clauses.
Qed.

(** Spreading a Search Clause after [index] leaves [index] alone. *)
Lemma spread_clause_index i clause :
  isSearchClause clause = true ->
  lookup "index" (spread [("index", i)] clause) = Some i.
Proof.
  unfold isSearchClause, clauseKind.
  destruct clause as [| | | | | | | | | [| [kind body] [|]]]; try discriminate.
  unfold clauseKinds, existsb, spread. simpl.
  switch_on kind; try discriminate; reflexivity.
Qed.

Lemma convertQueryToSearch_index this query w stage :
  convertQueryToSearch this query = (w, Return stage) ->
  exists props, stage = searchStageOf props /\
                lookup "index" props = Some (indexName this).
Proof.
  unfold convertQueryToSearch. intros H.
  apply bind_Return_inv in H as (w1 & es & w2 & _ & H & ->).
  destruct (List.length es =? 0)%nat; [inv_return H; now eexists |].
  apply bind_Return_inv in H as (w3 & clauses & w4 & Hq & H & ->).
  apply convertQuery_clauses in Hq.
  inv_return H; try (now eexists).
  destruct clauses as [| clause [|]]; try discriminate.
  eexists. split; [reflexivity |]. apply spread_clause_index.
  unfold allClauses in Hq. simpl in Hq. now rewrite andb_true_r in Hq.
Qed.

Lemma lookup_obj_set_same props k v : lookup k (obj_set props k v) = Some v.
Proof.
  induction props as [| [k' v'] props IH]; simpl.
  - now rewrite String.eqb_refl.
  - destruct (k' =? k) eqn:E; simpl; now rewrite E.
Qed.

Lemma lookup_obj_set_other props k k' v :
  (k' =? k) = false -> lookup k (obj_set props k' v) = lookup k props.
Proof.
  intros Hk. induction props as [| [k0 v0] props IH]; simpl.
  - now rewrite Hk.
  - destruct (k0 =? k') eqn:E; simpl; [| now rewrite IH].
    apply String.eqb_eq in E. subst k0. now rewrite Hk.
Qed.

Lemma searchIndex_stage props :
  searchIndex (searchStageOf props) = lookup "index" props.
Proof. reflexivity. Qed.

Lemma convertQueryToSearchWithOptions_index this query options w stage :
  convertQueryToSearchWithOptions this query options = (w, Return stage) ->
  searchIndex stage = Some (indexName this).
Proof.
  unfold convertQueryToSearchWithOptions. intros H.
  apply bind_Return_inv in H as (w1 & base & w2 & Hb & H & ->).
  apply convertQueryToSearch_index in Hb as (props & -> & Hi).
  inv_return H; try (now rewrite searchIndex_stage).
  unfold setSearchSort in H1. simpl in H1. inv_return H1.
  unfold searchIndex. simpl. now rewrite lookup_obj_set_other.
Qed.

(** ** The pipeline loops *)

Lemma Forall_skipn {A} (P : A -> Prop) n l : Forall P l -> Forall P (skipn n l).
Proof.
  revert l. induction n as [| n IH]; intros l H; simpl; trivial.
  destruct H; auto.
Qed.

Ltac scan_cases H IH :=
  simpl in H; inv_return H;
  try match goal with
    | R : scanStages _ _ _ = _ |- _ => apply IH in R; simpl in R |- *; auto
    end.

(** The look-ahead only moves forward. *)
Lemma scanStages_index options stages :
  forall st w st', scanStages options stages st = (w, Return st') ->
  currentIndex st <= currentIndex st'.
Proof.
  induction stages as [| stage rest IH]; intros st w st' H.
  - simpl in H. inv_return H. lia.
  - scan_cases H IH; simpl; lia.
Qed.

(** What the look-ahead keeps aside comes from the stages it scans. *)
Lemma scanStages_invariant (Q : value -> Prop) options stages :
  Forall Q stages ->
  forall st w st', scanStages options stages st = (w, Return st') ->
  Forall Q (remainingStages st) -> Q (projectStage st) ->
  Forall Q (remainingStages st') /\ Q (projectStage st').
Proof.
  induction 1 as [| stage rest Hs Hrest IH]; intros st w st' H Hr Hp.
  - simpl in H. inv_return H. auto.
  - scan_cases H IH. simpl. split; trivial.
    apply Forall_app. auto.
Qed.

Lemma optimize_nextIndex this pipeline startIndex options w s r n :
  optimizePipelineSequence this pipeline startIndex options =
    (w, Return (Optimized s r n)) ->
  startIndex < n.
Proof.
  unfold optimizePipelineSequence. intros H. inv_return H;
    match goal with
    | R : scanStages _ _ _ = _ |- _ => apply scanStages_index in R; simpl in R
    end;
    lia.
Qed.

Lemma literal_stage_foreign this k v :
  (k =? "$search") = false -> carriesIndex this (VObj [(k, v)]).
Proof. intros H. left. simpl. now rewrite H. Qed.

Lemma optimize_index this pipeline startIndex options w s r n :
  optimizePipelineSequence this pipeline startIndex options =
    (w, Return (Optimized s r n)) ->
  Forall (carriesIndex this) pipeline ->
  searchIndex s = Some (indexName this) /\ Forall (carriesIndex this) r.
Proof.
  unfold optimizePipelineSequence. intros H Hp. inv_return H.
  all: match goal with
       | R : scanStages _ _ _ = _ |- _ =>
           apply (scanStages_invariant (carriesIndex this)) in R as [Hr Hq];
           [| now apply Forall_skipn | constructor | now left]
       end.
  all: match goal with
       | R : convertQueryToSearchWithOptions _ _ _ = _ |- _ =>
           apply convertQueryToSearchWithOptions_index in R
       end.
  all: split; trivial;
    repeat match goal with
      | |- context [if ?c then _ else _] => destruct c
      end;
    repeat (apply Forall_cons;
            [first [now apply literal_stage_foreign | assumption] |]);
    trivial.
Qed.

Lemma bind_ext_on {A B} (m : M A) (f g : A -> M B) :
  (forall w a, m = (w, Return a) -> f a = g a) -> bind m f = bind m g.
Proof.
  intros H. destruct m as [w [a | e]]; unfold bind; trivial.
  now rewrite (H w a eq_refl).
Qed.

(** The main loop terminates: every turn moves [i] forward, so turns
    beyond [pipeline.length - i] are never taken. *)
Lemma pipelineLoop_enough this pipeline options :
  forall n m i newPipeline,
  List.length pipeline - i <= n -> n <= m ->
  pipelineLoop m this pipeline options i newPipeline =
  pipelineLoop n this pipeline options i newPipeline.
Proof.
  induction n as [| n IH]; intros m i newPipeline Hn Hm.
  - destruct m; simpl; trivial.
    destruct (Nat.ltb_spec i (List.length pipeline)); [lia | reflexivity].
  - destruct m as [| m]; [lia |]. simpl.
    destruct (Nat.ltb_spec i (List.length pipeline)); trivial.
    apply bind_ext. intros query. destruct (truthy query).
    + apply bind_ext_on. intros w [| s r next] Ho.
      * apply bind_ext. intros s. apply IH; lia.
      * apply optimize_nextIndex in Ho. apply IH; lia.
    + apply IH; lia.
Qed.

(** The output of the main loop: requests on the index of the converter,
    and stages of the input. *)
Lemma pipelineLoop_index this pipeline options :
  Forall (carriesIndex this) pipeline ->
  forall turns i newPipeline w out,
  pipelineLoop turns this pipeline options i newPipeline = (w, Return out) ->
  Forall (carriesIndex this) newPipeline ->
  Forall (carriesIndex this) out.
Proof.
  intros Hp. induction turns as [| turns IH]; intros i newPipeline w out H Hn.
  - simpl in H. inv_return H. exact Hn.
  - simpl in H.
    destruct (Nat.ltb_spec i (List.length pipeline)) as [Hi | Hi];
      [| inv_return H; exact Hn].
    apply bind_Return_inv in H as (w1 & query & w2 & _ & H & ->).
    destruct (truthy query).
    + apply bind_Return_inv in H as (w3 & [| s r next] & w4 & Ho & H & ->).
      * apply bind_Return_inv in H as (w5 & s & w6 & Hs & H & ->).
        apply IH in H; trivial. apply Forall_app. split; trivial.
        apply convertQueryToSearch_index in Hs as (props & -> & Hi').
        constructor; [| constructor]. right.
        now rewrite searchIndex_stage.
      * apply optimize_index in Ho as [Hs Hr]; trivial.
        apply IH in H; trivial. apply Forall_app. split; trivial.
        constructor; [now right | exact Hr].
    + apply IH in H; trivial. apply Forall_app. split; trivial.
      constructor; [| constructor].
      rewrite Forall_forall in Hp. apply Hp. now apply nth_In.
Qed.

Lemma pushOptions_head options stage :
  exists rest, pushOptions options [stage] = stage :: rest /\
               Forall (fun s => searchOf s = None) rest.
Proof.
  unfold pushOptions.
  destruct (truthy (projection options)), (truthy (skip options)),
    (truthy (limit options)); simpl; eexists; split;
    try reflexivity; repeat constructor.
Qed.

(** C9: every [$search] stage a converter builds carries the [indexName] of
    the converter, which is the name given to the constructor (['default']
    when none is given): the stage of [convertQueryToSearch] and of
    [convertQueryToSearchWithOptions], that of [createTextSearch] and of
    [createAutocomplete] whatever the extra options, the first stage of
    [convertFindQuery] (the stages after it are no [$search] stages), the
    [searchStage] of [optimizePipelineSequence], and every [$search] stage
    in the output of [convertAggregationPipeline] on a pipeline without
    [$search] stages.  The methods only read [this.indexName]: the embedding
    passes the converter to them and gets no converter back. *)
Theorem index_is_indexName this :
  (forall query w stage,
     convertQueryToSearch this query = (w, Return stage) ->
     searchIndex stage = Some (indexName this)) /\
  (forall query options w stage,
     convertQueryToSearchWithOptions this query options = (w, Return stage) ->
     searchIndex stage = Some (indexName this)) /\
  (forall searchText path options,
     searchIndex (createTextSearch this searchText path options) =
     Some (indexName this)) /\
  (forall query path options,
     searchIndex (createAutocomplete this query path options) =
     Some (indexName this)) /\
  (forall query options w pipeline,
     convertFindQuery this query options = (w, Return pipeline) ->
     exists stage rest,
       pipeline = stage :: rest /\
       searchIndex stage = Some (indexName this) /\
       Forall (fun s => searchOf s = None) rest) /\
  (forall pipeline startIndex options w searchStage remaining nextIndex,
     optimizePipelineSequence this pipeline startIndex options =
       (w, Return (Optimized searchStage remaining nextIndex)) ->
     searchIndex searchStage = Some (indexName this)) /\
  (forall stages options w out,
     convertAggregationPipeline this (VArr stages) options = (w, Return out) ->
     Forall (fun s => searchOf s = None) stages ->
     Forall (fun s => searchOf s = None \/
                      searchIndex s = Some (indexName this)) out) /\
  (forall name, name <> VUndefined -> indexName (constructor name) = name) /\
  indexName (constructor VUndefined) = VStr "default".
Proof.
  repeat split.
  - intros query w stage H.
    apply convertQueryToSearch_index in H as (props & -> & Hi).
    now rewrite searchIndex_stage.
  - intros query options w stage. apply convertQueryToSearchWithOptions_index.
  - intros query options w pipeline H. unfold convertFindQuery in H.
    destruct (truthy (sort options));
      apply bind_Return_inv in H as (w1 & stage & w2 & Hs & H & ->);
      inv_return H;
      destruct (pushOptions_head options stage) as (rest & -> & Hrest);
      exists stage, rest; repeat split; trivial.
    + eapply convertQueryToSearchWithOptions_index; eassumption.
    + apply convertQueryToSearch_index in Hs as (props & -> & Hi).
      now rewrite searchIndex_stage.
  - intros pipeline startIndex options w searchStage remaining nextIndex H.
    unfold optimizePipelineSequence in H. inv_return H;
      eapply convertQueryToSearchWithOptions_index; eassumption.
  - intros stages options w out H Hst. simpl in H.
    eapply pipelineLoop_index; [| exact H | constructor].
    eapply Forall_impl; [| exact Hst]. intros s Hs. now left.
  - intros name Hn. now destruct name.
Qed.

Lemma index_is_indexName_witness :
  convertQueryToSearch (constructor (VStr "products_search"))
    (VObj [("status", VStr "active")]) =
    ([], Return (searchStageOf
                   [("index", VStr "products_search");
                    ("equals", VObj [("path", VStr "status");
                                     ("value", VStr "active")])])) /\
  searchIndex (searchStageOf
                 [("index", VStr "products_search");
                  ("equals", VObj [("path", VStr "status");
                                   ("value", VStr "active")])]) =
  Some (VStr "products_search").
Proof.
  split; [reflexivity |].
  exact (proj1 (index_is_indexName (constructor (VStr "products_search")))
           (VObj [("status", VStr "active")]) [] _ eq_refl).
Defined.

(* ================================================================== *)
(** * Pipeline folding *)

(** ** What the look-ahead returns *)

(** The look-ahead captures a [$project] stage only when
    [options.includeProjection] is truthy. *)
Lemma scanStages_projection options stages :
  forall st w st', scanStages options stages st = (w, Return st') ->
  truthy (projectStage st) && negb (truthy (includeProjection options)) = false ->
  truthy (projectStage st') && negb (truthy (includeProjection options)) = false.
Proof.
  induction stages as [| stage rest IH]; intros st w st' H Hp.
  - simpl in H. inv_return H. exact Hp.
  - scan_cases H IH; simpl; trivial;
      match goal with
      | C : _ && truthy (includeProjection options) = true |- _ =>
          apply andb_true_iff in C as [_ C]; rewrite C; apply andb_false_r
      end.
Qed.

(** So the guard [projectStage && !options.includeProjection] that puts the
    captured projection back is never true. *)
Lemma projection_guard_dead options stages startIndex w st :
  scanStages options stages (scanStart startIndex) = (w, Return st) ->
  truthy (projectStage st) && negb (truthy (includeProjection options)) = false.
Proof. intros H. now apply (scanStages_projection _ _ _ _ _ H). Qed.

(** A captured [$sort] stage is not replaced by a later one. *)
Lemma scanStages_sort_kept options stages :
  forall st w st', scanStages options stages st = (w, Return st') ->
  truthy (sortStage st) = true -> sortStage st' = sortStage st.
Proof.
  induction stages as [| stage rest IH]; intros st w st' H Hs.
  - simpl in H. inv_return H. reflexivity.
  - simpl in H. rewrite Hs in H. inv_return H;
      try match goal with
        | R : scanStages _ _ _ = _ |- _ => now apply IH in R
        end;
      try reflexivity.
    rewrite andb_false_r in *. discriminate.
Qed.

(** When the look-ahead ends, the stages it hands back are those from the
    index it stopped at. *)
Lemma scanStages_remaining options stages :
  forall st w st', scanStages options stages st = (w, Return st') ->
  remainingStages st' =
  remainingStages st ++ skipn (currentIndex st' - currentIndex st) stages.
Proof.
  induction stages as [| stage rest IH]; intros st w st' H.
  - simpl in H. inv_return H. rewrite skipn_nil. now rewrite app_nil_r.
  - simpl in H. inv_return H;
      try match goal with
        | R : scanStages _ _ _ = _ |- _ =>
            pose proof (scanStages_index _ _ _ _ _ R) as Hle;
            apply IH in R; simpl in R, Hle; rewrite R;
            replace (currentIndex st' - currentIndex st)
              with (S (currentIndex st' - S (currentIndex st))) by lia;
            reflexivity
        end.
    simpl. now rewrite Nat.sub_diag.
Qed.

(** What the fold hands back after the request: [$limit] if one was
    captured, then [$skip] if one was captured, then the stages of the
    pipeline from [nextIndex] on.  There is no place for a projection, nor
    for a sort. *)
Lemma fold_output this pipeline startIndex options w searchStage remaining
  nextIndex :
  optimizePipelineSequence this pipeline startIndex options =
    (w, Return (Optimized searchStage remaining nextIndex)) ->
  exists limitPart skipPart,
    remaining = limitPart ++ skipPart ++ skipn nextIndex pipeline /\
    (limitPart = [] \/ exists l, limitPart = [VObj [("$limit", l)]]) /\
    (skipPart = [] \/ exists k, skipPart = [VObj [("$skip", k)]]).
Proof.
  unfold optimizePipelineSequence. intros H.
  apply bind_Return_inv in H as (w1 & query & w2 & _ & H & ->).
  destruct (negb (truthy query)); [inv_return H |].
  apply bind_Return_inv in H as (w3 & st & w4 & Hscan & H & ->).
  rewrite (projection_guard_dead _ _ _ _ _ Hscan) in H.
  pose proof (scanStages_index _ _ _ _ _ Hscan) as Hle.
  apply scanStages_remaining in Hscan. simpl in Hscan, Hle.
  rewrite skipn_skipn in Hscan.
  replace (currentIndex st - (startIndex + 1) + (startIndex + 1))
    with (currentIndex st) in Hscan by lia.
  inv_return H; rewrite Hscan;
    first
      [ eexists [_], [_]; split; [reflexivity |];
        split; right; eexists; reflexivity
      | eexists [_], []; split; [reflexivity |];
        split; [right; eexists; reflexivity | left; reflexivity]
      | eexists [], [_]; split; [reflexivity |];
        split; [left; reflexivity | right; eexists; reflexivity]
      | exists [], []; split; [reflexivity |]; split; left; reflexivity ].
Qed.

(** ** A sort that does not convert *)

(** A sort specification with a direction that is not a number converts
    to [null], with one warning, for the first such field, unless that
    direction has no string for the message: then a TypeError, and no
    warning. *)
Lemma sortLoop_nonnumeric before field direction after :
  forallb (fun kv => typeof_number (snd kv)) before = true ->
  typeof_number direction = false ->
  forall searchSort,
    sortLoop (before ++ (field, direction) :: after) searchSort =
    if toStringThrows direction then ([], Throw TypeError)
    else ([ComplexSortField field direction], Return VNull).
Proof.
  intros Hb Hd. induction before as [| [f d] before IH]; intros searchSort.
  - simpl. rewrite Hd. now destruct (toStringThrows direction).
  - simpl in Hb |- *. apply andb_true_iff in Hb as [-> Hb]. now apply IH.
Qed.

(** C2: take a [$match] stage followed by a [$sort] stage in which some
    direction is not a number (the first such field is [field]).  The fold
    does print the warning for that field and embeds no sort: its request is
    the one [convertQueryToSearch] gives.  But the [$sort] stage does not
    stay in the pipeline: the look-ahead has consumed it ([nextIndex] is
    past it) and the stages handed back are at most a [$limit], a [$skip]
    and the stages from [nextIndex] on.  The code loses the sort where the
    specification says it is left as a stage of its own. *)
Theorem unconvertible_sort_is_lost this query before field direction after
  rest options w searchStage remaining nextIndex :
  forallb (fun kv => typeof_number (snd kv)) before = true ->
  typeof_number direction = false ->
  optimizePipelineSequence this
    (VObj [("$match", query)] ::
     VObj [("$sort", VObj (before ++ (field, direction) :: after))] :: rest)
    0 options =
    (w, Return (Optimized searchStage remaining nextIndex)) ->
  In (ComplexSortField field direction) w /\
  (exists w0, convertQueryToSearch this query = (w0, Return searchStage)) /\
  2 <= nextIndex /\
  exists limitPart skipPart,
    remaining =
      limitPart ++ skipPart ++
      skipn nextIndex
        (VObj [("$match", query)] ::
         VObj [("$sort", VObj (before ++ (field, direction) :: after))] ::
         rest) /\
    (limitPart = [] \/ exists l, limitPart = [VObj [("$limit", l)]]) /\
    (skipPart = [] \/ exists k, skipPart = [VObj [("$skip", k)]]).
Proof.
  intros Hb Hd H.
  assert (Hout := fold_output _ _ _ _ _ _ _ _ H).
  unfold optimizePipelineSequence in H. simpl in H.
  rewrite bind_ret_l in H. destruct (truthy query); simpl in H;
    [| inversion H].
  rewrite !bind_ret_l in H. simpl in H.
  apply bind_Return_inv in H as (w1 & st & w2 & Hscan & H & ->).
  pose proof (scanStages_index _ _ _ _ _ Hscan) as Hle.
  apply scanStages_sort_kept in Hscan; [| reflexivity].
  simpl in Hscan, Hle. rewrite Hscan in H. simpl in H.
  rewrite bind_ret_l in H.
  apply bind_Return_inv in H as (w3 & s & w4 & Hs & H & ->).
  unfold convertQueryToSearchWithOptions in Hs.
  apply bind_Return_inv in Hs as (w5 & base & w6 & Hbase & Hs & ->).
  simpl in Hs. unfold convertSortToAtlasSearch in Hs. simpl in Hs.
  rewrite (sortLoop_nonnumeric _ _ _ _ Hb Hd) in Hs.
  destruct (toStringThrows direction); [discriminate Hs |].
  rewrite bind_quiet_warn in Hs. simpl in Hs. inv_return Hs.
  apply bind_Return_inv in H as (w7 & r1 & w8 & _ & H & ->).
  apply bind_Return_inv in H as (w9 & r2 & w10 & _ & H & ->).
  inversion H; subst.
  repeat split; trivial.
  - rewrite !in_app_iff. simpl. tauto.
  - now exists w5.
Qed.

Lemma unconvertible_sort_is_lost_witness :
  forallb (fun kv : string * value => typeof_number (snd kv)) [] = true /\
  typeof_number (VObj [("$meta", VStr "textScore")]) = false /\
  optimizePipelineSequence (constructor (VStr "default"))
    [VObj [("$match", VObj [("status", VStr "active")])];
     VObj [("$sort", VObj [("score", VObj [("$meta", VStr "textScore")])])];
     VObj [("$limit", VNum 10)]] 0 noOptions =
    ([ComplexSortField "score" (VObj [("$meta", VStr "textScore")])],
     Return (Optimized
               (VObj [("$search",
                       VObj [("index", VStr "default");
                             ("equals", VObj [("path", VStr "status");
                                              ("value", VStr "active")])])])
               [VObj [("$limit", VNum 10)]] 3)) /\
  2 <= 3.
Proof.
  split; [reflexivity |]. split; [reflexivity |]. split; [reflexivity |].
  exact (proj1 (proj2 (proj2
    (unconvertible_sort_is_lost (constructor (VStr "default"))
       (VObj [("status", VStr "active")]) [] "score"
       (VObj [("$meta", VStr "textScore")]) [] [VObj [("$limit", VNum 10)]]
       noOptions _ _ _ 3 eq_refl eq_refl eq_refl)))).
Defined.

(** The whole conversion of that pipeline: the request and the limit. *)
Example unconvertible_sort_example this :
  convertAggregationPipeline this
    (VArr [VObj [("$match", VObj [("status", VStr "active")])];
           VObj [("$sort", VObj [("score", VObj [("$meta", VStr "textScore")])])];
           VObj [("$limit", VNum 10)]])
    noOptions =
  ([ComplexSortField "score" (VObj [("$meta", VStr "textScore")])],
   Return
     [VObj [("$search",
             VObj [("index", indexName this);
                   ("equals", VObj [("path", VStr "status");
                                    ("value", VStr "active")])])];
      VObj [("$limit", VNum 10)]]).
Proof. reflexivity. Qed.

(** ** A captured projection *)

(** C3: take a [$match] stage followed by a [$project] stage, with
    [options.includeProjection] truthy, so that the look-ahead captures the
    projection.  The fold emits the request, then [$limit] if captured, then
    [$skip] if captured, [$limit] first whatever their order in the input,
    then the stages from [nextIndex] on.  But the captured projection is not
    emitted: [nextIndex] is past it and the stages handed back are at most a
    [$limit], a [$skip] and the stages from [nextIndex] on.  The code loses
    the projection where the specification says it follows [$limit] and
    [$skip]. *)
Theorem captured_projection_is_lost this query p rest options w searchStage
  remaining nextIndex :
  truthy p = true ->
  truthy (includeProjection options) = true ->
  optimizePipelineSequence this
    (VObj [("$match", query)] :: VObj [("$project", p)] :: rest) 0 options =
    (w, Return (Optimized searchStage remaining nextIndex)) ->
  2 <= nextIndex /\
  exists limitPart skipPart,
    remaining =
      limitPart ++ skipPart ++
      skipn nextIndex
        (VObj [("$match", query)] :: VObj [("$project", p)] :: rest) /\
    (limitPart = [] \/ exists l, limitPart = [VObj [("$limit", l)]]) /\
    (skipPart = [] \/ exists k, skipPart = [VObj [("$skip", k)]]).
Proof.
  intros Hp Ho H. split; [| exact (fold_output _ _ _ _ _ _ _ _ H)].
  unfold optimizePipelineSequence in H. simpl in H.
  rewrite bind_ret_l in H. destruct (truthy query); simpl in H;
    [| inversion H].
  rewrite !bind_ret_l in H. simpl in H. rewrite Hp, Ho in H. simpl in H.
  apply bind_Return_inv in H as (w1 & st & w2 & Hscan & H & ->).
  apply scanStages_index in Hscan. simpl in Hscan.
  apply bind_Return_inv in H as (w3 & sortSpec & w4 & _ & H & ->).
  apply bind_Return_inv in H as (w5 & s & w6 & _ & H & ->).
  apply bind_Return_inv in H as (w7 & r1 & w8 & _ & H & ->).
  apply bind_Return_inv in H as (w9 & r2 & w10 & _ & H & ->).
  inversion H; subst. exact Hscan.
Qed.

Lemma captured_projection_is_lost_witness :
  truthy (VObj [("name", VNum 1); ("email", VNum 1)]) = true /\
  truthy (includeProjection includingProjection) = true /\
  optimizePipelineSequence (constructor (VStr "default"))
    [VObj [("$match", VObj [("status", VStr "active")])];
     VObj [("$project", VObj [("name", VNum 1); ("email", VNum 1)])];
     VObj [("$sort", VObj [("name", VNum 1)])]] 0 includingProjection =
    ([],
     Return (Optimized
               (VObj [("$search",
                       VObj [("index", VStr "default");
                             ("equals", VObj [("path", VStr "status");
                                              ("value", VStr "active")]);
                             ("sort",
                              VObj [("name", VObj [("order", VNum 1)])])])])
               [] 3)) /\
  2 <= 3.
Proof.
  split; [reflexivity |]. split; [reflexivity |]. split; [reflexivity |].
  exact (proj1
    (captured_projection_is_lost (constructor (VStr "default"))
       (VObj [("status", VStr "active")])
       (VObj [("name", VNum 1); ("email", VNum 1)])
       [VObj [("$sort", VObj [("name", VNum 1)])]]
       includingProjection _ _ _ 3 eq_refl eq_refl eq_refl)).
Defined.

(** The whole conversion, on the pipeline of the repository's own test of
    [includeProjection] and on one with [$skip] before [$limit]. *)
Example captured_projection_example this :
  convertAggregationPipeline this
    (VArr [VObj [("$match", VObj [("status", VStr "active")])];
           VObj [("$project", VObj [("name", VNum 1); ("email", VNum 1)])];
           VObj [("$sort", VObj [("name", VNum 1)])]])
    includingProjection =
  ([],
   Return
     [VObj [("$search",
             VObj [("index", indexName this);
                   ("equals", VObj [("path", VStr "status");
                                    ("value", VStr "active")]);
                   ("sort", VObj [("name", VObj [("order", VNum 1)])])])]]) /\
  convertAggregationPipeline this
    (VArr [VObj [("$match", VObj [("status", VStr "active")])];
           VObj [("$skip", VNum 20)];
           VObj [("$project", VObj [("name", VNum 1)])];
           VObj [("$limit", VNum 10)]])
    includingProjection =
  ([],
   Return
     [VObj [("$search",
             VObj [("index", indexName this);
                   ("equals", VObj [("path", VStr "status");
                                    ("value", VStr "active")])])];
      VObj [("$limit", VNum 10)];
      VObj [("$skip", VNum 20)]]).
Proof. split; reflexivity. Qed.

(** ** The remainder after an unfoldable stage *)

Lemma skipn_nth {A} (l : list A) i d :
  i < List.length l -> skipn i l = nth i l d :: skipn (S i) l.
Proof.
  revert i. induction l as [| x l IH]; intros i Hi; simpl in Hi; [lia |].
  destruct i as [| i]; [reflexivity |].
  change (skipn (S i) (x :: l)) with (skipn i l).
  change (nth (S i) (x :: l) d) with (nth i l d).
  rewrite (IH i) by lia. reflexivity.
Qed.

(** Stages without [$match] go through the main loop unchanged. *)
Lemma pipelineLoop_passthrough this pipeline options :
  forall n i newPipeline,
  Forall (keyFalsy "$match") (skipn i pipeline) ->
  List.length pipeline - i <= n ->
  pipelineLoop n this pipeline options i newPipeline =
  ([], Return (newPipeline ++ skipn i pipeline)).
Proof.
  induction n as [| n IH]; intros i newPipeline Hp Hn; simpl.
  - rewrite skipn_all2 by lia. now rewrite app_nil_r.
  - destruct (Nat.ltb_spec i (List.length pipeline)) as [Hi | Hi].
    + rewrite (skipn_nth _ _ VUndefined Hi) in Hp |- *.
      inversion Hp as [| stage rest (v & Hv & Hf) Hrest]; subst.
      rewrite Hv, bind_ret_l, Hf, IH; trivial; try lia.
      now rewrite <- app_assoc.
    + rewrite skipn_all2 by lia. now rewrite app_nil_r.
Qed.

(** The look-ahead that stops at once: the request, the whole remainder,
    and the index of the stage it stopped at. *)
Lemma optimize_stops_at_once this query stage rest options w searchStage :
  truthy query = true ->
  convertQueryToSearch this query = (w, Return searchStage) ->
  unfoldable stage ->
  optimizePipelineSequence this
    (VObj [("$match", query)] :: stage :: rest) 0 options =
  (w, Return (Optimized searchStage (stage :: rest) 1)).
Proof.
  intros Hq Hs ((s & Es & Fs) & (l & El & Fl) & (k & Ek & Fk) & (p & Ep & Fp)).
  unfold optimizePipelineSequence. simpl. rewrite bind_ret_l, Hq. simpl.
  rewrite Es, El, Ek, Ep, !bind_ret_l, Fs, Fl, Fk, Fp. simpl.
  rewrite !bind_ret_l. simpl. rewrite bind_ret_l.
  unfold convertQueryToSearchWithOptions. rewrite Hs. simpl.
  unfold bind, ret. simpl. now rewrite !app_nil_r.
Qed.

Lemma pipelineLoop_S turns this pipeline options i newPipeline :
  pipelineLoop (S turns) this pipeline options i newPipeline =
  if (i <? List.length pipeline)%nat then
    query <- get (nth i pipeline VUndefined) "$match" ;;
    if truthy query then
      optimization <- optimizePipelineSequence this pipeline i options ;;
      match optimization with
      | Optimized searchStage remaining nextIndex =>
          pipelineLoop turns this pipeline options nextIndex
            (newPipeline ++ [searchStage] ++ remaining)
      | NotOptimized =>
          searchStage <- convertQueryToSearch this query ;;
          pipelineLoop turns this pipeline options (S i)
            (newPipeline ++ [searchStage])
      end
    else
      pipelineLoop turns this pipeline options (S i)
        (newPipeline ++ [nth i pipeline VUndefined])
  else ret newPipeline.
Proof. reflexivity. Qed.

(** C7: take a [$match] stage followed by a stage the look-ahead cannot
    fold ([stage]: no [$sort], [$limit], [$skip] or [$project] in it), and
    let no stage from there on be a [$match].  The look-ahead stops at
    [stage] and hands back the stages from there on, but it also reports the
    index of [stage] as the next one to process, so the main loop goes over
    the same stages again: the output is the request followed by the
    remainder twice, where the specification says it is passed through
    once, in order. *)
Theorem remainder_is_emitted_twice this query stage rest options w
  searchStage :
  truthy query = true ->
  convertQueryToSearch this query = (w, Return searchStage) ->
  unfoldable stage ->
  Forall (keyFalsy "$match") (stage :: rest) ->
  convertAggregationPipeline this
    (VArr (VObj [("$match", query)] :: stage :: rest)) options =
  (w, Return (searchStage :: (stage :: rest) ++ (stage :: rest))).
Proof.
  intros Hq Hs Hu Hrest. unfold convertAggregationPipeline.
  change (List.length (VObj [("$match", query)] :: stage :: rest))
    with (S (S (List.length rest))).
  rewrite pipelineLoop_S.
  change (nth 0 (VObj [("$match", query)] :: stage :: rest) VUndefined)
    with (VObj [("$match", query)]).
  unfold get at 1. simpl lookup. cbv iota. rewrite bind_ret_l, Hq.
  rewrite (optimize_stops_at_once _ _ _ _ _ _ _ Hq Hs Hu).
  rewrite bind_return. cbv beta iota.
  rewrite pipelineLoop_passthrough; [| exact Hrest | simpl; lia].
  simpl. now rewrite app_nil_r.
Qed.

Lemma remainder_is_emitted_twice_witness :
  truthy (VObj [("a", VNum 1)]) = true /\
  convertQueryToSearch (constructor (VStr "default")) (VObj [("a", VNum 1)]) =
    ([], Return (VObj [("$search",
                        VObj [("index", VStr "default");
                              ("equals", VObj [("path", VStr "a");
                                               ("value", VNum 1)])])])) /\
  unfoldable (VObj [("$unwind", VStr "$tags")]) /\
  Forall (keyFalsy "$match")
    [VObj [("$unwind", VStr "$tags")]; VObj [("$sort", VObj [("p", VNum 1)])]] /\
  convertAggregationPipeline (constructor (VStr "default"))
    (VArr [VObj [("$match", VObj [("a", VNum 1)])];
           VObj [("$unwind", VStr "$tags")];
           VObj [("$sort", VObj [("p", VNum 1)])]])
    noOptions =
  ([],
   Return
     [VObj [("$search",
             VObj [("index", VStr "default");
                   ("equals", VObj [("path", VStr "a"); ("value", VNum 1)])])];
      VObj [("$unwind", VStr "$tags")];
      VObj [("$sort", VObj [("p", VNum 1)])];
      VObj [("$unwind", VStr "$tags")];
      VObj [("$sort", VObj [("p", VNum 1)])]]).
Proof.
  assert (Hu : unfoldable (VObj [("$unwind", VStr "$tags")])).
  { repeat split; exists VUndefined; split; reflexivity. }
  assert (Hr : Forall (keyFalsy "$match")
                 [VObj [("$unwind", VStr "$tags")];
                  VObj [("$sort", VObj [("p", VNum 1)])]]).
  { repeat constructor; exists VUndefined; split; reflexivity. }
  split; [reflexivity |]. split; [reflexivity |].
  split; [exact Hu |]. split; [exact Hr |].
  exact (remainder_is_emitted_twice (constructor (VStr "default"))
           (VObj [("a", VNum 1)]) (VObj [("$unwind", VStr "$tags")])
           [VObj [("$sort", VObj [("p", VNum 1)])]] noOptions [] _
           eq_refl eq_refl Hu Hr).
Defined.

(** The example of the specification, and a pipeline with a second
    [$match]: it is handed back as it is and converted as well. *)
Example remainder_twice_example this :
  convertAggregationPipeline this
    (VArr [VObj [("$match", VObj [("a", VNum 1)])];
           VObj [("$unwind", VStr "$tags")];
           VObj [("$sort", VObj [("p", VNum 1)])]])
    noOptions =
  ([],
   Return
     [VObj [("$search",
             VObj [("index", indexName this);
                   ("equals", VObj [("path", VStr "a"); ("value", VNum 1)])])];
      VObj [("$unwind", VStr "$tags")];
      VObj [("$sort", VObj [("p", VNum 1)])];
      VObj [("$unwind", VStr "$tags")];
      VObj [("$sort", VObj [("p", VNum 1)])]]) /\
  convertAggregationPipeline this
    (VArr [VObj [("$match", VObj [("status", VStr "published")])];
           VObj [("$limit", VNum 100)];
           VObj [("$match", VObj [("featured", VBool true)])]])
    noOptions =
  ([],
   Return
     [VObj [("$search",
             VObj [("index", indexName this);
                   ("equals", VObj [("path", VStr "status");
                                    ("value", VStr "published")])])];
      VObj [("$limit", VNum 100)];
      VObj [("$match", VObj [("featured", VBool true)])];
      VObj [("$search",
             VObj [("index", indexName this);
                   ("equals", VObj [("path", VStr "featured");
                                    ("value", VBool true)])])]]).
Proof. split; reflexivity. Qed.
(* ================================================================== *)
(** * Filters that match everything, literal fields *)

Lemma forOf_app {A S} (body : S -> A -> M S) xs ys s :
  forOf body (xs ++ ys) s = (s' <- forOf body xs s ;; forOf body ys s').
Proof.
  revert s. induction xs as [| x xs IH]; intros s; simpl.
  - now rewrite bind_ret_l.
  - rewrite bind_assoc. apply bind_ext. intros s'. apply IH.
Qed.

(** X1: A query without own properties: the match-all request, for [null] and
    [undefined] a TypeError. *)
Theorem empty_query_matches_all this query :
  own_entries query = [] ->
  convertFindQuery this query noOptions =
  match query with
  | VNull | VUndefined => ([], Throw TypeError)
  | _ =>
      ([], Return [VObj [("$search",
                          VObj [("index", indexName this);
                                ("exists", VObj [("path", VStr "_id")])])]])
  end.
Proof.
  intros H. unfold convertFindQuery, convertQueryToSearch, entries. simpl.
  destruct query; try reflexivity; rewrite H; reflexivity.
Qed.

Lemma empty_query_matches_all_witness :
  own_entries (VObj []) = [] /\
  convertFindQuery (constructor (VStr "default")) (VObj []) noOptions =
  ([], Return [VObj [("$search",
                      VObj [("index", VStr "default");
                            ("exists", VObj [("path", VStr "_id")])])]]).
Proof.
  split; [reflexivity |].
  exact (empty_query_matches_all (constructor (VStr "default")) (VObj []) eq_refl).
Defined.

(** The loop of [convertFieldOperators] over unrecognized keys only: one
    warning per key, no clause. *)
Lemma unsupported_loop self field operators es :
  forallb (fun kv => unrecognized (fst kv)) es = true ->
  forall st,
  forOf (fieldOperatorCase self field operators) es st =
  (map UnsupportedOperator (map fst es), Return st).
Proof.
  induction es as [| [k v] es IH]; intros H st; [reflexivity |].
  simpl in H. apply andb_true_iff in H as [Hk H].
  rewrite forOf_cons, fieldOperatorCase_default by exact Hk.
  unfold bind. now rewrite IH.
Qed.

Lemma unsupported_fields_loop es :
  forallb onlyUnsupported es = true ->
  forall clauses,
  forOf (queryEntryCase convertLogicalOperator) es clauses =
  (map UnsupportedOperator (flat_map operatorKeys es), Return clauses).
Proof.
  induction es as [| [f v] es IH]; intros H clauses; [reflexivity |].
  simpl in H. apply andb_true_iff in H as [Hf H].
  unfold onlyUnsupported in Hf. simpl in Hf.
  apply andb_true_iff in Hf as [Hf Hv]. apply negb_true_iff in Hf.
  destruct v; try discriminate.
  rewrite forOf_cons. unfold queryEntryCase at 1. rewrite Hf.
  unfold convertFieldQuery. simpl convertFieldOperators.
  unfold fieldOperatorsLoop. rewrite (unsupported_loop _ _ _ _ Hv).
  unfold bind at 2 3. simpl. rewrite bind_return, (IH H). simpl.
  unfold operatorKeys at 1. simpl. now rewrite !app_nil_r, map_app.
Qed.

(** X2: A filter in which every field has an operator object with unrecognized
    keys only converts to no clause at all, and [convertQueryToSearch] then
    falls back to the match-all request: one warning per key, and a request
    that matches every document. *)
Theorem unsupported_operators_match_all this props :
  props <> [] ->
  forallb onlyUnsupported props = true ->
  convertQueryToSearch this (VObj props) =
  (map UnsupportedOperator (flat_map operatorKeys props),
   Return (VObj [("$search",
                  VObj [("index", indexName this);
                        ("exists", VObj [("path", VStr "_id")])])])).
Proof.
  intros Hne H. unfold convertQueryToSearch, entries.
  rewrite bind_ret_l. destruct props as [| kv props]; [easy |].
  simpl own_entries. simpl List.length. cbv iota beta.
  change ((S (List.length props) =? 0)%nat) with false. cbv iota.
  rewrite convertQuery_object, (unsupported_fields_loop _ H).
  rewrite bind_return. simpl. now rewrite app_nil_r.
Qed.

Lemma unsupported_operators_match_all_witness :
  [("tags", VObj [("$size", VNum 2); ("$all", VArr [VStr "a"])])] <> [] /\
  forallb onlyUnsupported
    [("tags", VObj [("$size", VNum 2); ("$all", VArr [VStr "a"])])] = true /\
  convertQueryToSearch (constructor (VStr "default"))
    (VObj [("tags", VObj [("$size", VNum 2); ("$all", VArr [VStr "a"])])]) =
  ([UnsupportedOperator "$size"; UnsupportedOperator "$all"],
   Return (VObj [("$search",
                  VObj [("index", VStr "default");
                        ("exists", VObj [("path", VStr "_id")])])])).
Proof.
  assert (Hne : [("tags", VObj [("$size", VNum 2); ("$all", VArr [VStr "a"])])]
                <> []) by discriminate.
  split; [exact Hne |]. split; [reflexivity |].
  exact (unsupported_operators_match_all (constructor (VStr "default"))
           [("tags", VObj [("$size", VNum 2); ("$all", VArr [VStr "a"])])]
           Hne eq_refl).
Defined.

(** Fields with literal values: one [equals] clause each, in key order. *)
Lemma literal_fields_loop es :
  forallb literalField es = true ->
  forall clauses,
  forOf (queryEntryCase convertLogicalOperator) es clauses =
  ([], Return (clauses ++ map equalsClauseOf es)).
Proof.
  induction es as [| [f v] es IH]; intros H clauses.
  - simpl. now rewrite app_nil_r.
  - simpl in H. apply andb_true_iff in H as [Hf H].
    unfold literalField in Hf. simpl in Hf.
    apply andb_true_iff in Hf as [Hf Hv]. apply negb_true_iff in Hf.
    rewrite forOf_cons. unfold queryEntryCase at 1. rewrite Hf.
    assert (E : convertFieldQuery f v = ret [equalsClause f v])
      by (destruct v; try discriminate; reflexivity).
    rewrite E, !bind_ret_l, IH by exact H.
    simpl. now rewrite <- app_assoc.
Qed.

(** X3: A filter whose fields all have literal values (anything but [null],
    an array or a plain object): a single field gives the request with the
    [equals] clause inlined; two fields or more give [compound.must] of the
    [equals] clauses, in the order of the fields.  No warning. *)
Theorem literal_fields_conjunction this props :
  props <> [] ->
  forallb literalField props = true ->
  convertQueryToSearch this (VObj props) =
  ([], Return
     (match props with
      | [(f, v)] =>
          VObj [("$search",
                 VObj [("index", indexName this);
                       ("equals", VObj [("path", VStr f); ("value", v)])])]
      | _ =>
          VObj [("$search",
                 VObj [("index", indexName this);
                       ("compound",
                        VObj [("must",
                               VArr (map (fun kv =>
                                            VObj [("equals",
                                                   VObj [("path", VStr (fst kv));
                                                         ("value", snd kv)])])
                                         props))])])]
      end)).
Proof.
  intros Hne H. unfold convertQueryToSearch, entries.
  rewrite bind_ret_l. destruct props as [| [f v] props]; [easy |].
  simpl own_entries. simpl List.length. cbv iota beta.
  change ((S (List.length props) =? 0)%nat) with false. cbv iota.
  rewrite convertQuery_object, (literal_fields_loop _ H), bind_quiet.
  destruct props as [| kv props]; reflexivity.
Qed.

Lemma literal_fields_conjunction_witness :
  [("status", VStr "active"); ("count", VNum 42)] <> [] /\
  forallb literalField [("status", VStr "active"); ("count", VNum 42)] = true /\
  convertQueryToSearch (constructor (VStr "default"))
    (VObj [("status", VStr "active"); ("count", VNum 42)]) =
  ([], Return
     (VObj [("$search",
             VObj [("index", VStr "default");
                   ("compound",
                    VObj [("must",
                           VArr [VObj [("equals",
                                        VObj [("path", VStr "status");
                                              ("value", VStr "active")])];
                                 VObj [("equals",
                                        VObj [("path", VStr "count");
                                              ("value", VNum 42)])]])])])])).
Proof.
  assert (Hne : [("status", VStr "active"); ("count", VNum 42)] <> [])
    by discriminate.
  split; [exact Hne |]. split; [reflexivity |].
  exact (literal_fields_conjunction (constructor (VStr "default"))
           [("status", VStr "active"); ("count", VNum 42)] Hne eq_refl).
Defined.

(* ================================================================== *)
(** * How filters compose *)

Lemma queryEntryCase_entryClauses clauses entry :
  queryEntryCase convertLogicalOperator clauses entry =
  (cs <- entryClauses entry ;; ret (clauses ++ cs)).
Proof.
  destruct entry as [k v]. unfold queryEntryCase, entryClauses. simpl.
  now destruct (startsWith k "$").
Qed.

(** The loop of [convertQuery] appends to what it starts with. *)
Lemma queryLoop_shift es :
  forall clauses,
  forOf (queryEntryCase convertLogicalOperator) es clauses =
  (cs <- forOf (queryEntryCase convertLogicalOperator) es [] ;;
   ret (clauses ++ cs)).
Proof.
  induction es as [| entry es IH]; intros clauses.
  - simpl. now rewrite bind_ret_l, app_nil_r.
  - rewrite !forOf_cons, !queryEntryCase_entryClauses, !bind_assoc.
    apply bind_ext. intros cs1. rewrite !bind_ret_l. simpl.
    rewrite (IH (clauses ++ cs1)), (IH cs1), bind_assoc.
    apply bind_ext. intros cs. now rewrite bind_ret_l, app_assoc.
Qed.

(** The clauses of a filter are those of its first keys followed by those
    of its last keys. *)
Lemma convertQuery_app props1 props2 :
  convertQuery (VObj (props1 ++ props2)) =
  (cs1 <- convertQuery (VObj props1) ;;
   cs2 <- convertQuery (VObj props2) ;;
   ret (cs1 ++ cs2)).
Proof.
  rewrite !convertQuery_object, forOf_app. apply bind_ext. intros cs1.
  apply queryLoop_shift.
Qed.

(** [flatMap] over a list of filters: the clauses of all their entries in
    a row. *)
Lemma flatMap_filters filters :
  flatMap convertQuery (map VObj filters) = convertQuery (VObj (List.concat filters)).
Proof.
  induction filters as [| props filters IH]; [reflexivity |].
  simpl List.concat. rewrite convertQuery_app. simpl. now rewrite IH.
Qed.

(** X4: The translation of [$and], [$or] and [$nor] only sees the entries of
    the filters in the list, one after the other, not which filter an entry
    belongs to: two lists of filters with the same entries in a row give the
    same clause.  So [{$or: [{a: 1, b: 2}]}] and [{$or: [{a: 1}, {b: 2}]}]
    translate alike. *)
Theorem junction_flattens_filters operator filters filters' :
  isJunction operator = true ->
  List.concat filters = List.concat filters' ->
  convertLogicalOperator operator (VArr (map VObj filters)) =
  convertLogicalOperator operator (VArr (map VObj filters')) /\
  forall this,
    convertQueryToSearch this (VObj [(operator, VArr (map VObj filters))]) =
    convertQueryToSearch this (VObj [(operator, VArr (map VObj filters'))]).
Proof.
  intros Hop Hc.
  assert (E : convertLogicalOperator operator (VArr (map VObj filters)) =
              convertLogicalOperator operator (VArr (map VObj filters'))).
  { unfold convertLogicalOperator, convertLogicalOperatorWith, callFlatMap.
    now rewrite !flatMap_filters, Hc. }
  split; [exact E |]. intros this.
  assert (Hs : startsWith operator "$" = true).
  { revert Hop. unfold isJunction, existsb. switch_on operator;
      try discriminate; reflexivity. }
  unfold convertQueryToSearch, entries. rewrite !bind_ret_l. simpl.
  rewrite !Hs. fold convertLogicalOperator. now rewrite E.
Qed.

Lemma junction_flattens_filters_witness :
  isJunction "$or" = true /\
  List.concat [[("a", VNum 1); ("b", VNum 2)]] =
  List.concat [[("a", VNum 1)]; [("b", VNum 2)]] /\
  convertLogicalOperator "$or"
    (VArr [VObj [("a", VNum 1); ("b", VNum 2)]]) =
  convertLogicalOperator "$or"
    (VArr [VObj [("a", VNum 1)]; VObj [("b", VNum 2)]]).
Proof.
  split; [reflexivity |]. split; [reflexivity |].
  exact (proj1 (junction_flattens_filters "$or"
                  [[("a", VNum 1); ("b", VNum 2)]]
                  [[("a", VNum 1)]; [("b", VNum 2)]] eq_refl eq_refl)).
Defined.



(* ================================================================== *)
(** * Diagnostics and clauses of an Operator Set *)

(** One turn of the operator loop prints the warning of an unrecognized
    key, or what the conversion under [$not] prints, or nothing. *)
Lemma case_warnings self field props st k v :
  ((k =? "$not") = true ->
   exists cs, self v = (map UnsupportedOperator (unrecognizedKeys v), Return cs)) ->
  exists st',
    fieldOperatorCase self field (VObj props) st (k, v) =
    (map UnsupportedOperator
       (if unrecognized k then [k]
        else if k =? "$not" then unrecognizedKeys v else []),
     Return st').
Proof.
  intros Hnot. destruct (unrecognized k) eqn:Hu.
  - rewrite fieldOperatorCase_default by exact Hu. now eexists.
  - revert Hu Hnot.
    unfold unrecognized, operatorCases, existsb, fieldOperatorCase, get.
    destruct st as [clauses handled].
    switch_on k; simpl; intros Hu Hnot; try discriminate;
      try (eexists; reflexivity).
    + destruct (truthy v); eexists; reflexivity.
    + destruct handled; simpl; [eexists; reflexivity |].
      rewrite bind_ret_l. destruct (typeof_string v); eexists; reflexivity.
    + destruct (Hnot eq_refl) as [cs ->]. eexists. unfold bind, ret.
      simpl. now rewrite app_nil_r.
Qed.

Lemma loop_warnings {A S} (body : S -> A -> M S) (warningsOf : A -> list diagnostic)
  xs :
  Forall (fun x => forall s, exists s', body s x = (warningsOf x, Return s')) xs ->
  forall s, exists s',
    forOf body xs s = (flat_map warningsOf xs, Return s').
Proof.
  induction 1 as [| x xs Hx _ IH]; intros s.
  - now exists s.
  - rewrite forOf_cons. destruct (Hx s) as [s1 ->].
    destruct (IH s1) as [s2 E]. exists s2. unfold bind. now rewrite E.
Qed.

Lemma operatorSet_warnings field v :
  isOperatorSet v = true ->
  exists cs,
    convertFieldOperators field v =
    (map UnsupportedOperator (unrecognizedKeys v), Return cs).
Proof.
  induction v as [| | | | | | | | | props IH] using value_nested_ind;
    try discriminate.
  intros Hset. simpl in Hset. rewrite forallb_forall in Hset.
  simpl convertFieldOperators. unfold fieldOperatorsLoop.
  destruct (loop_warnings
              (fieldOperatorCase (convertFieldOperators field) field (VObj props))
              (fun kv => map UnsupportedOperator
                           (if unrecognized (fst kv) then [fst kv]
                            else if fst kv =? "$not"
                                 then unrecognizedKeys (snd kv) else []))
              props) with (s := (@nil value, false)) as [[cs handled] E].
  - rewrite Forall_forall in IH |- *. intros [k x] Hin s. cbn [fst snd].
    apply case_warnings. intros Hk. apply (IH _ Hin).
    specialize (Hset _ Hin). simpl in Hset. now rewrite Hk in Hset.
  - exists cs. rewrite E. unfold bind, ret. simpl. rewrite app_nil_r.
    f_equal. clear. induction props as [| kv props IHp]; [reflexivity |].
    simpl. now rewrite map_app, IHp.
Qed.

(** X6: The conversion of an Operator Set prints exactly one warning for each
    unrecognized key, those of the sets under [$not] included, in the order
    of the keys, and nothing else. *)
Theorem diagnostics_are_unrecognized_keys field v :
  isOperatorSet v = true ->
  warnings (convertFieldOperators field v) =
  map UnsupportedOperator (unrecognizedKeys v).
Proof.
  intros H. destruct (operatorSet_warnings field v H) as [cs ->]. reflexivity.
Qed.

Lemma diagnostics_are_unrecognized_keys_witness :
  isOperatorSet
    (VObj [("$size", VNum 2); ("$gt", VNum 1);
           ("$not", VObj [("$mod", VArr [VNum 2; VNum 0])])]) = true /\
  warnings (convertFieldOperators "n"
    (VObj [("$size", VNum 2); ("$gt", VNum 1);
           ("$not", VObj [("$mod", VArr [VNum 2; VNum 0])])])) =
  [UnsupportedOperator "$size"; UnsupportedOperator "$mod"].
Proof.
  split; [reflexivity |].
  exact (diagnostics_are_unrecognized_keys "n"
           (VObj [("$size", VNum 2); ("$gt", VNum 1);
                  ("$not", VObj [("$mod", VArr [VNum 2; VNum 0])])]) eq_refl).
Defined.

(** One turn adds a clause other than a pattern clause exactly for a
    clause key. *)
Lemma count_step self field operators clauses handled k v w clauses' handled' :
  fieldOperatorCase self field operators (clauses, handled) (k, v) =
    (w, Return (clauses', handled')) ->
  List.length (filter (fun c => negb (isKind "regex" c)) clauses') =
  List.length (filter (fun c => negb (isKind "regex" c)) clauses) +
  (if isClauseKey k then 1 else 0).
Proof.
  unfold fieldOperatorCase, isClauseKey, existsb.
  switch_on k; simpl; intros H; inv_return H;
    rewrite ?filter_app, ?length_app; simpl; lia.
Qed.

Lemma count_loop self field operators es :
  forall clauses handled w clauses' handled',
  forOf (fieldOperatorCase self field operators) es (clauses, handled) =
    (w, Return (clauses', handled')) ->
  List.length (filter (fun c => negb (isKind "regex" c)) clauses') =
  List.length (filter (fun c => negb (isKind "regex" c)) clauses) +
  List.length (filter (fun kv => isClauseKey (fst kv)) es).
Proof.
  induction es as [| [k v] es IH]; intros clauses handled w clauses' handled' H.
  - simpl in H. inv_return H. simpl. lia.
  - rewrite forOf_cons in H.
    apply bind_Return_inv in H as (w1 & [clauses1 handled1] & w2 & H1 & H2 & ->).
    rewrite (IH _ _ _ _ _ H2), (count_step _ _ _ _ _ _ _ _ _ _ H1). simpl.
    destruct (isClauseKey k); simpl; lia.
Qed.

(** X7: The number of clauses of an Operator Set: one for each of the keys
    [$eq], [$ne], [$gt], [$gte], [$lt], [$lte], [$in], [$nin], [$exists] and
    [$not], one more if there is a [$regex] key with a string pattern, and
    none for any other key. *)
Theorem clause_count field props :
  isOperatorSet (VObj props) = true ->
  exists w clauses,
    convertFieldOperators field (VObj props) = (w, Return clauses) /\
    List.length clauses =
    List.length (filter (fun kv => isClauseKey (fst kv)) props) +
    patternCount props.
Proof.
  intros Hset. destruct (operatorSet_returns field _ Hset) as (w & clauses & E).
  exists w, clauses. split; [exact E |].
  simpl in E. unfold fieldOperatorsLoop in E.
  apply bind_Return_inv in E as (w1 & [cl handled] & w2 & H1 & H2 & ->).
  inv_return H2. simpl.
  pose proof (count_loop _ _ _ _ _ _ _ _ _ H1) as Hc.
  pose proof (regex_loop _ _ _ _ _ _ _ _ _ H1) as Hr.
  rewrite <- (filter_length (isKind "regex") clauses), Hr, Hc. simpl.
  unfold pendingRegex, patternCount.
  destruct (lookup "$regex" props) as [[]|]; simpl; lia.
Qed.

Lemma clause_count_witness :
  isOperatorSet (VObj [("$gte", VNum 1); ("$regex", VStr "^a");
                       ("$options", VStr "i"); ("$size", VNum 3)]) = true /\
  exists w clauses,
    convertFieldOperators "f"
      (VObj [("$gte", VNum 1); ("$regex", VStr "^a");
             ("$options", VStr "i"); ("$size", VNum 3)]) = (w, Return clauses) /\
    List.length clauses = 2.
Proof.
  split; [reflexivity |].
  exact (clause_count "f"
           [("$gte", VNum 1); ("$regex", VStr "^a");
            ("$options", VStr "i"); ("$size", VNum 3)] eq_refl).
Defined.

(* ================================================================== *)
(** * Exceptions *)

Lemma throwsOnly_ret {A} P (a : A) : throwsOnly P (ret a).
Proof. intros w e H. discriminate. Qed.

Lemma throwsOnly_throw {A} (P : error -> Prop) e : P e -> throwsOnly P (@throw A e).
Proof. intros H w e' E. now inversion E; subst. Qed.

Lemma throwsOnly_warn P d : throwsOnly P (warn d).
Proof. intros w e H. discriminate. Qed.

Lemma throwsOnly_bind {A B} P (m : M A) (f : A -> M B) :
  throwsOnly P m -> (forall a, throwsOnly P (f a)) -> throwsOnly P (bind m f).
Proof.
  intros Hm Hf w e. destruct m as [w1 [a | e1]]; unfold bind.
  - destruct (f a) as [w2 r] eqn:E. intros H. inversion H; subst.
    now apply (Hf a w2).
  - intros H. inversion H; subst. now apply (Hm w).
Qed.

Lemma throwsOnly_forOf {A S} P (body : S -> A -> M S) xs :
  Forall (fun x => forall s, throwsOnly P (body s x)) xs ->
  forall s, throwsOnly P (forOf body xs s).
Proof.
  induction 1 as [| x xs Hx _ IH]; intros s; simpl.
  - apply throwsOnly_ret.
  - apply throwsOnly_bind; auto.
Qed.

Lemma throwsOnly_flatMap {A B} P (f : A -> M (list B)) xs :
  Forall (fun x => throwsOnly P (f x)) xs -> throwsOnly P (flatMap f xs).
Proof.
  induction 1 as [| x xs Hx _ IH]; simpl.
  - apply throwsOnly_ret.
  - apply throwsOnly_bind; [exact Hx |]. intros ys.
    apply throwsOnly_bind; [exact IH |]. intros zs. apply throwsOnly_ret.
Qed.

Lemma throwsOnly_entries (P : error -> Prop) v :
  P TypeError -> throwsOnly P (entries v).
Proof.
  intros H. destruct v; first [apply throwsOnly_ret | now apply throwsOnly_throw].
Qed.

Lemma throwsOnly_get (P : error -> Prop) v name :
  P TypeError -> throwsOnly P (get v name).
Proof.
  intros H. destruct v; first [apply throwsOnly_ret | now apply throwsOnly_throw].
Qed.

Lemma throwsOnly_get_opt (P : error -> Prop) v name :
  P TypeError -> throwsOnly P (get_opt v name).
Proof.
  intros H. destruct v; first [apply throwsOnly_ret | now apply throwsOnly_throw].
Qed.

Lemma throwsOnly_impl {A} (P Q : error -> Prop) (m : M A) :
  (forall e, P e -> Q e) -> throwsOnly P m -> throwsOnly Q m.
Proof. intros H Hm w e E. eapply H, Hm, E. Qed.

Lemma returns_not_throws {A} (m : M A) : returns m -> ~ throws m.
Proof. intros (w & a & ->) (w' & e & E). discriminate. Qed.

Lemma returns_get v name : isNullish v = false -> returns (get v name).
Proof. destruct v; try discriminate; intros _; apply returns_ret. Qed.

(** A turn of the operator loop over any operand that is not [null] or
    [undefined]. *)
Lemma case_returns self field operators st k v :
  isNullish operators = false ->
  ((k =? "$not") = true -> returns (self v)) ->
  returns (fieldOperatorCase self field operators st (k, v)).
Proof.
  intros Hop H. unfold fieldOperatorCase. destruct st as [clauses handled].
  switch_on k; try apply returns_ret.
  - destruct (truthy v); apply returns_ret.
  - destruct (negb handled); [| apply returns_ret].
    apply returns_bind; [now apply returns_get |]. intros o.
    destruct (typeof_string v); apply returns_ret.
  - apply returns_bind; [now apply H |]. intros; apply returns_ret.
  - apply returns_bind; [now eexists _, _ | intros; apply returns_ret].
Qed.

Lemma case_throwsOnly (P : error -> Prop) self field operators st k v :
  P TypeError ->
  ((k =? "$not") = true -> throwsOnly P (self v)) ->
  throwsOnly P (fieldOperatorCase self field operators st (k, v)).
Proof.
  intros HP H. unfold fieldOperatorCase. destruct st as [clauses handled].
  switch_on k; try apply throwsOnly_ret.
  - destruct (truthy v); apply throwsOnly_ret.
  - destruct (negb handled); [| apply throwsOnly_ret].
    apply throwsOnly_bind; [now apply throwsOnly_get |]. intros o.
    destruct (typeof_string v); apply throwsOnly_ret.
  - apply throwsOnly_bind; [now apply H |]. intros; apply throwsOnly_ret.
  - apply throwsOnly_bind; [apply throwsOnly_warn | intros; apply throwsOnly_ret].
Qed.

Lemma operators_throwsOnly (P : error -> Prop) field v :
  P TypeError -> throwsOnly P (convertFieldOperators field v).
Proof.
  intros HP.
  assert (K : forall es,
    throwsOnly P (fieldOperatorsLoop (fun _ => throw TypeError) field v es)).
  { intros es. unfold fieldOperatorsLoop.
    apply throwsOnly_bind; [| intros; apply throwsOnly_ret].
    apply throwsOnly_forOf, Forall_forall. intros [k x] _ s.
    apply case_throwsOnly; trivial. intros _. now apply throwsOnly_throw. }
  induction v as [| | | | | | | | | props IH] using value_nested_ind;
    try (unfold convertFieldOperators;
         apply throwsOnly_bind; [now apply throwsOnly_entries | exact K]).
  simpl. unfold fieldOperatorsLoop.
  apply throwsOnly_bind; [| intros; apply throwsOnly_ret].
  apply throwsOnly_forOf. rewrite Forall_forall in IH |- *.
  intros [k x] Hin s. apply case_throwsOnly; trivial.
  intros _. apply (IH _ Hin). intros es. unfold fieldOperatorsLoop.
  apply throwsOnly_bind; [| intros; apply throwsOnly_ret].
  apply throwsOnly_forOf, Forall_forall. intros [k' x'] _ s'.
  apply case_throwsOnly; trivial. intros _. now apply throwsOnly_throw.
Qed.

Lemma operators_return field v :
  wrapsNull v = false -> returns (convertFieldOperators field v).
Proof.
  assert (K : forall u, isNullish u = false -> isPlainObject u = false ->
    returns (es <- entries u ;;
             fieldOperatorsLoop (fun _ => throw TypeError) field u es)).
  { intros u Hn Hp.
    assert (E : entries u = ret (own_entries u))
      by (destruct u; try discriminate; reflexivity).
    rewrite E, bind_ret_l. unfold fieldOperatorsLoop.
    apply returns_bind; [| intros; apply returns_ret].
    apply forOf_returns.
    eapply Forall_impl; [| apply own_entries_indexKeyed, Hp].
    intros [k x] Hk s. apply case_returns; trivial.
    intros Hnot. simpl in Hk.
    rewrite (startsWith_neq k "$not" Hk eq_refl) in Hnot. discriminate. }
  induction v as [| | | | | | | | | props IH] using value_nested_ind;
    intros Hw; try discriminate; try (now apply K).
  simpl. unfold fieldOperatorsLoop.
  apply returns_bind; [| intros; apply returns_ret].
  apply forOf_returns. rewrite Forall_forall in IH |- *.
  intros [k x] Hin s. apply case_returns; trivial.
  intros Hk. apply (IH _ Hin).
  simpl in Hw. cbn [snd]. destruct (wrapsNull x) eqn:Hx; trivial.
  rewrite <- Hw. symmetry. apply existsb_exists. exists (k, x).
  simpl. now rewrite Hk, Hx.
Qed.

Lemma operators_throw field v :
  wrapsNull v = true -> throws (convertFieldOperators field v).
Proof.
  induction v as [| | | | | | | | | props IH] using value_nested_ind;
    intros Hw; try discriminate; try (now exists [], TypeError).
  simpl in Hw. apply existsb_exists in Hw as ([k x] & Hin & Hk).
  simpl in Hk. apply andb_true_iff in Hk as [Hk Hx].
  apply String.eqb_eq in Hk. subst k.
  rewrite Forall_forall in IH. specialize (IH _ Hin Hx).
  simpl. unfold fieldOperatorsLoop. apply throws_bind_l.
  apply (forOf_throws _ _ ("$not", x)); [exact Hin |].
  intros [clauses handled]. simpl. now apply throws_bind_l.
Qed.

(** X8: The conversion of a field's operators fails in one way only: a
    TypeError, and exactly when the operand is [null] or [undefined] or has,
    at some depth, a [$not] key over such a value.  For [convertFieldQuery]
    the operand must also be a plain object, since [null] itself is a
    literal there. *)
Theorem operators_fail_on_negated_null field v :
  (throws (convertFieldOperators field v) <-> wrapsNull v = true) /\
  (throws (convertFieldQuery field v) <->
   isPlainObject v = true /\ wrapsNull v = true) /\
  (forall w e, convertFieldOperators field v = (w, Throw e) -> e = TypeError).
Proof.
  assert (A : throws (convertFieldOperators field v) <-> wrapsNull v = true).
  { split; [| apply operators_throw].
    intros H. destruct (wrapsNull v) eqn:Hw; trivial.
    now apply (operators_return field) in Hw; apply returns_not_throws in Hw. }
  split; [exact A |]. split.
  - destruct v; simpl isPlainObject;
      try (split; [intros (w & e & E); simpl in E; discriminate
                  | now intros [? _]]).
    + split; [intros (w & e & E); simpl in E;
              repeat (destruct (_ =? _)%nat in E); discriminate
             | now intros [? _]].
    + change (convertFieldQuery field (VObj props))
        with (convertFieldOperators field (VObj props)).
      rewrite A. tauto.
  - intros w e E. symmetry.
    exact (operators_throwsOnly (eq TypeError) field v eq_refl w e E).
Qed.

Lemma operators_fail_on_negated_null_witness :
  wrapsNull (VObj [("$gt", VNum 1); ("$not", VNull)]) = true /\
  throws (convertFieldQuery "a" (VObj [("$gt", VNum 1); ("$not", VNull)])).
Proof.
  split; [reflexivity |].
  apply (proj1 (proj2 (operators_fail_on_negated_null "a"
                         (VObj [("$gt", VNum 1); ("$not", VNull)])))).
  split; reflexivity.
Defined.

Lemma fieldQuery_throwsOnly (P : error -> Prop) field v :
  P TypeError -> throwsOnly P (convertFieldQuery field v).
Proof.
  intros HP. destruct v; try apply throwsOnly_ret.
  - simpl. repeat (destruct (_ =? _)%nat); try apply throwsOnly_ret.
    apply throwsOnly_bind; [apply throwsOnly_warn | intros; apply throwsOnly_ret].
  - now apply operators_throwsOnly.
Qed.

Lemma logical_throwsOnly (P : error -> Prop) convert operator v :
  (forall e, isFilterError e = true -> P e) ->
  startsWith operator "$" = true ->
  (forall subs, v = VArr subs -> Forall (fun s => throwsOnly P (convert s)) subs) ->
  throwsOnly P (convertLogicalOperatorWith convert operator v).
Proof.
  intros HP Hop Hsubs.
  assert (K : throwsOnly P (callFlatMap convert v)).
  { destruct v; try (now apply throwsOnly_throw, HP).
    now apply throwsOnly_flatMap, Hsubs. }
  unfold convertLogicalOperatorWith.
  destruct (operator =? "$and") eqn:E1;
    [apply throwsOnly_bind; [exact K | intros; apply throwsOnly_ret] |].
  destruct (operator =? "$or") eqn:E2;
    [apply throwsOnly_bind; [exact K | intros; apply throwsOnly_ret] |].
  destruct (operator =? "$nor") eqn:E3;
    [apply throwsOnly_bind; [exact K | intros; apply throwsOnly_ret] |].
  destruct (operator =? "$not") eqn:E4; [now apply throwsOnly_throw, HP |].
  apply throwsOnly_throw, HP. simpl. now rewrite Hop, E1, E2, E3, E4.
Qed.

Lemma queryEntryCase_throwsOnly (P : error -> Prop) logical clauses k v :
  P TypeError ->
  (startsWith k "$" = true -> throwsOnly P (logical k v)) ->
  throwsOnly P (queryEntryCase logical clauses (k, v)).
Proof.
  intros HP H. unfold queryEntryCase. destruct (startsWith k "$").
  - apply throwsOnly_bind; [now apply H | intros; apply throwsOnly_ret].
  - apply throwsOnly_bind; [now apply fieldQuery_throwsOnly |].
    intros; apply throwsOnly_ret.
Qed.

(** The exceptions of [convertQuery], together with those of the
    conversion of each element when the filter is an array, which is what
    the call from [convertLogicalOperator] needs. *)
Lemma convertQuery_throwsOnly_nested (P : error -> Prop) v :
  (forall e, isFilterError e = true -> P e) ->
  throwsOnly P (convertQuery v) /\
  (forall subs, v = VArr subs ->
   Forall (fun s => throwsOnly P (convertQuery s)) subs).
Proof.
  intros HP.
  assert (K : forall u,
    throwsOnly P
      (es <- entries u ;;
       forOf (queryEntryCase
                (convertLogicalOperatorWith (fun _ => throw TypeError))) es [])).
  { intros u. apply throwsOnly_bind; [apply throwsOnly_entries, HP; reflexivity |].
    intros es. apply throwsOnly_forOf, Forall_forall. intros [k x] _ s.
    apply queryEntryCase_throwsOnly; [now apply HP |]. intros Hk.
    apply logical_throwsOnly; trivial. intros subs _. apply Forall_forall.
    intros y _. now apply throwsOnly_throw, HP. }
  induction v as [| | | | | | | | elems IH | props IH] using value_nested_ind;
    try (split; [apply K | discriminate]).
  - split; [apply K |]. intros subs E. inversion E; subst.
    eapply Forall_impl; [| exact IH]. now intros s [Hs _].
  - split; [| discriminate]. simpl.
    apply throwsOnly_forOf. rewrite Forall_forall in IH |- *.
    intros [k x] Hin s. apply queryEntryCase_throwsOnly; [now apply HP |].
    intros Hk. apply logical_throwsOnly; trivial. apply (IH _ Hin).
Qed.

Lemma convertQuery_throwsOnly v :
  throwsOnly (fun e => isFilterError e = true) (convertQuery v).
Proof. now apply convertQuery_throwsOnly_nested. Qed.

Lemma convertQueryToSearch_throwsOnly this query :
  throwsOnly (fun e => isFilterError e = true) (convertQueryToSearch this query).
Proof.
  unfold convertQueryToSearch.
  apply throwsOnly_bind; [now apply throwsOnly_entries |]. intros keys.
  destruct (List.length keys =? 0)%nat; [apply throwsOnly_ret |].
  apply throwsOnly_bind; [apply convertQuery_throwsOnly |]. intros clauses.
  destruct clauses as [| c1 [| c2 clauses]]; apply throwsOnly_ret.
Qed.

Lemma sortLoop_throwsOnly (P : error -> Prop) es :
  P TypeError -> forall acc, throwsOnly P (sortLoop es acc).
Proof.
  intros HP. induction es as [| [f d] es IH]; intros acc; simpl.
  - apply throwsOnly_ret.
  - destruct (typeof_number d); [apply IH |].
    destruct (toStringThrows d); [now apply throwsOnly_throw |].
    apply throwsOnly_bind; [apply throwsOnly_warn | intros; apply throwsOnly_ret].
Qed.

Lemma convertSort_throwsOnly (P : error -> Prop) sortSpec :
  P TypeError -> throwsOnly P (convertSortToAtlasSearch sortSpec).
Proof.
  intros HP. unfold convertSortToAtlasSearch.
  destruct (_ || _); [apply throwsOnly_ret | now apply sortLoop_throwsOnly].
Qed.

Lemma withOptions_throwsOnly this query options :
  throwsOnly (fun e => isFilterError e = true)
    (convertQueryToSearchWithOptions this query options).
Proof.
  unfold convertQueryToSearchWithOptions.
  apply throwsOnly_bind; [apply convertQueryToSearch_throwsOnly |]. intros base.
  destruct (truthy (sort options)); [| apply throwsOnly_ret].
  apply throwsOnly_bind; [now apply convertSort_throwsOnly |].
  intros s. destruct (truthy s); [| apply throwsOnly_ret].
  unfold setSearchSort. apply throwsOnly_bind; [now apply throwsOnly_get |].
  intros search. destruct base, search;
    first [apply throwsOnly_ret | now apply throwsOnly_throw].
Qed.

Lemma scanStages_throwsOnly options stages :
  forall st, throwsOnly (fun e => isFilterError e = true)
               (scanStages options stages st).
Proof.
  induction stages as [| stage rest IH]; intros st; simpl.
  - apply throwsOnly_ret.
  - repeat (apply throwsOnly_bind; [now apply throwsOnly_get |]; intros ?).
    repeat match goal with
           | |- throwsOnly _ (if ?c then _ else _) => destruct c
           end; first [apply IH | apply throwsOnly_ret].
Qed.

Lemma optimize_throwsOnly this pipeline startIndex options :
  throwsOnly (fun e => isFilterError e = true)
    (optimizePipelineSequence this pipeline startIndex options).
Proof.
  unfold optimizePipelineSequence.
  apply throwsOnly_bind; [now apply throwsOnly_get |]. intros query.
  destruct (negb (truthy query)); [apply throwsOnly_ret |].
  apply throwsOnly_bind; [apply scanStages_throwsOnly |]. intros st.
  apply throwsOnly_bind; [now apply throwsOnly_get_opt |]. intros sortSpec.
  apply throwsOnly_bind; [apply withOptions_throwsOnly |]. intros searchStage.
  apply throwsOnly_bind.
  { destruct (truthy (skipStage st)); [| apply throwsOnly_ret].
    apply throwsOnly_bind; [now apply throwsOnly_get |].
    intros; apply throwsOnly_ret. }
  intros remaining. apply throwsOnly_bind.
  { destruct (truthy (limitStage st)); [| apply throwsOnly_ret].
    apply throwsOnly_bind; [now apply throwsOnly_get |].
    intros; apply throwsOnly_ret. }
  intros; apply throwsOnly_ret.
Qed.

Lemma pipelineLoop_throwsOnly this pipeline options turns :
  forall i newPipeline,
    throwsOnly (fun e => isFilterError e = true)
      (pipelineLoop turns this pipeline options i newPipeline).
Proof.
  induction turns as [| turns IH]; intros i newPipeline; simpl.
  - apply throwsOnly_ret.
  - destruct (i <? List.length pipeline)%nat; [| apply throwsOnly_ret].
    apply throwsOnly_bind; [now apply throwsOnly_get |]. intros query.
    destruct (truthy query); [| apply IH].
    apply throwsOnly_bind; [apply optimize_throwsOnly |].
    intros [| searchStage remaining nextIndex]; [| apply IH].
    apply throwsOnly_bind; [apply convertQueryToSearch_throwsOnly |].
    intros; apply IH.
Qed.

(** X9: The exceptions of the two public conversions.  [convertFindQuery]
    throws, for one filter or another, exactly these: a TypeError of the
    language, '$not operator should be handled at field level', and
    'Unsupported logical operator' for a key that starts with [$] and is
    none of [$and], [$or], [$nor], [$not].  [convertAggregationPipeline]
    throws 'Pipeline must be an array', before any warning, for every input
    that is not an array, and for an array exactly the same three as
    [convertFindQuery].  'Unable to convert query to Atlas Search' is never
    thrown. *)
Theorem exceptions_of_the_conversions this options :
  (forall e,
     (exists query w, convertFindQuery this query options = (w, Throw e)) <->
     isFilterError e = true) /\
  (forall pipeline,
     isArray pipeline = false ->
     convertAggregationPipeline this pipeline options =
     ([], Throw PipelineMustBeArray)) /\
  (forall e,
     (exists stages w,
        convertAggregationPipeline this (VArr stages) options = (w, Throw e)) <->
     isFilterError e = true).
Proof.
  assert (Hfind : forall query,
    throwsOnly (fun e => isFilterError e = true)
      (convertFindQuery this query options)).
  { intros query. unfold convertFindQuery.
    destruct (truthy (sort options));
      (apply throwsOnly_bind;
       [first [apply withOptions_throwsOnly
              | apply convertQueryToSearch_throwsOnly]
       | intros; apply throwsOnly_ret]). }
  assert (Hq : forall e, isFilterError e = true ->
    exists query, truthy query = true /\
                  convertQueryToSearch this query = ([], Throw e)).
  { intros [| | operator | |] He; try discriminate.
    - exists (VObj [("$not", VNull)]). split; reflexivity.
    - simpl in He. apply andb_true_iff in He as [Hop Hn].
      rewrite negb_true_iff in Hn. simpl in Hn.
      repeat (apply orb_false_iff in Hn as [? Hn]).
      exists (VObj [(operator, VNull)]). split; [reflexivity |].
      unfold convertQueryToSearch. simpl. unfold queryEntryCase.
      rewrite Hop. unfold convertLogicalOperatorWith.
      repeat match goal with E : (operator =? _) = false |- _ =>
               rewrite E; clear E end.
      reflexivity.
    - exists (VObj [("$and", VNull)]). split; reflexivity. }
  split; [| split].
  - intros e. split; [intros (query & w & H); exact (Hfind query w e H) |].
    intros He. destruct (Hq e He) as (query & _ & E).
    exists query, []. unfold convertFindQuery, convertQueryToSearchWithOptions.
    rewrite E. now destruct (truthy (sort options)).
  - intros pipeline Hp. now destruct pipeline.
  - intros e. split.
    + intros (stages & w & H). revert H. apply pipelineLoop_throwsOnly.
    + intros He. destruct (Hq e He) as (query & Ht & E).
      exists [VObj [("$match", query)]], [].
      unfold convertAggregationPipeline. cbn [List.length].
      rewrite pipelineLoop_S. simpl. rewrite bind_ret_l, Ht.
      unfold optimizePipelineSequence. simpl. rewrite bind_ret_l, Ht. simpl.
      rewrite !bind_ret_l. simpl.
      unfold convertQueryToSearchWithOptions. now rewrite E.
Qed.

Lemma exceptions_of_the_conversions_witness :
  convertFindQuery (constructor VUndefined)
    (VObj [("$not", VObj [("a", VNum 1)])]) noOptions =
    ([], Throw NotAtFieldLevel) /\
  isFilterError NotAtFieldLevel = true.
Proof.
  split; [reflexivity |].
  apply (proj1 (exceptions_of_the_conversions (constructor VUndefined) noOptions)
           NotAtFieldLevel).
  exists (VObj [("$not", VObj [("a", VNum 1)])]), []. reflexivity.
Defined.

(* ================================================================== *)
(** * Paths *)

Lemma forOf_invariant_In {A S} (I : S -> Prop) (body : S -> A -> M S) xs :
  (forall s x w s', In x xs -> body s x = (w, Return s') -> I s -> I s') ->
  forall s w s', forOf body xs s = (w, Return s') -> I s -> I s'.
Proof.
  induction xs as [| x xs IH]; intros Hbody s w s' H Hs.
  - simpl in H. inv_return H. exact Hs.
  - rewrite forOf_cons in H.
    apply bind_Return_inv in H as (w1 & s1 & w2 & H1 & H2 & ->).
    eapply IH; [| exact H2 |].
    + intros. eapply Hbody; eauto. now right.
    + eapply Hbody; eauto. now left.
Qed.

Lemma clausePaths_mustNot clauses :
  clausePaths (mustNotClause clauses) = flat_map clausePaths clauses.
Proof. simpl. apply app_nil_r. Qed.

(** One turn of the operator loop adds clauses on the field only. *)
Lemma case_paths self field operators clauses handled k v w clauses' handled' :
  (forall w cs, self v = (w, Return cs) ->
                incl (flat_map clausePaths cs) [VStr field]) ->
  fieldOperatorCase self field operators (clauses, handled) (k, v) =
    (w, Return (clauses', handled')) ->
  incl (flat_map clausePaths clauses) [VStr field] ->
  incl (flat_map clausePaths clauses') [VStr field].
Proof.
  intros Hself H Hin. revert H. unfold fieldOperatorCase.
  switch_on k; intros H; inv_return H; trivial;
    rewrite flat_map_app; apply incl_app; trivial;
    try (simpl; intros p [<- | []]; now left).
  - simpl. destruct (truthy (or_else _ _)); simpl;
      intros p [<- | []]; now left.
  - cbn [flat_map]. rewrite clausePaths_mustNot, app_nil_r. eauto.
Qed.

Lemma operators_paths field v :
  forall w clauses,
    convertFieldOperators field v = (w, Return clauses) ->
    incl (flat_map clausePaths clauses) [VStr field].
Proof.
  assert (K : forall u es w clauses,
    fieldOperatorsLoop (fun _ => throw TypeError) field u es = (w, Return clauses) ->
    incl (flat_map clausePaths clauses) [VStr field]).
  { intros u es w clauses H. unfold fieldOperatorsLoop in H.
    apply bind_Return_inv in H as (w1 & [cl handled] & w2 & H1 & H2 & ->).
    inv_return H2. simpl.
    apply (forOf_invariant_In
             (fun st => incl (flat_map clausePaths (fst st)) [VStr field])
             _ _) in H1; trivial; [| easy].
    intros [c h] [k x] w' [c' h'] _ Hstep. simpl.
    eapply case_paths; [| exact Hstep]. discriminate. }
  induction v as [| | | | | | | | elems _ | props IH] using value_nested_ind;
    intros w clauses H;
    try (unfold convertFieldOperators in H;
         apply bind_Return_inv in H as (w1 & es & w2 & _ & H2 & ->);
         now apply K in H2).
  simpl in H. unfold fieldOperatorsLoop in H.
  apply bind_Return_inv in H as (w1 & [cl handled] & w2 & H1 & H2 & ->).
  inv_return H2. simpl.
  apply (forOf_invariant_In
           (fun st => incl (flat_map clausePaths (fst st)) [VStr field])
           _ _) in H1; trivial; [| easy].
  intros [c h] [k x] w' [c' h'] Hin Hstep. simpl.
  eapply case_paths; [| exact Hstep].
  rewrite Forall_forall in IH. exact (IH _ Hin).
Qed.

Lemma fieldQuery_paths field v w clauses :
  convertFieldQuery field v = (w, Return clauses) ->
  incl (flat_map clausePaths clauses) [VStr field].
Proof.
  destruct v; try (apply operators_paths);
    unfold convertFieldQuery, nullClause; intros H; inv_return H;
    try (simpl; intros p [<- | []]; now left).
  simpl. rewrite !app_nil_r. clear. induction elems as [| e elems IH].
  - easy.
  - simpl. intros p [<- | Hp]; [now left | now apply IH].
Qed.

Lemma flatMap_paths (f : value -> M (list value)) (names : value -> list string)
  filters :
  Forall (fun s => forall w cs, f s = (w, Return cs) ->
                   incl (flat_map clausePaths cs) (map VStr (names s))) filters ->
  forall w clauses,
    flatMap f filters = (w, Return clauses) ->
    incl (flat_map clausePaths clauses) (map VStr (flat_map names filters)).
Proof.
  induction 1 as [| s filters Hs _ IH]; intros w clauses H; simpl in H.
  - inv_return H. easy.
  - apply bind_Return_inv in H as (w1 & ys & w2 & H1 & H2 & ->).
    apply bind_Return_inv in H2 as (w3 & zs & w4 & H3 & H4 & ->).
    inv_return H4. simpl. rewrite flat_map_app, map_app.
    apply incl_app; [apply incl_appl; eauto | apply incl_appr; eauto].
Qed.

(** The clauses of one entry of a filter, given what the conversion of the
    listed filters yields. *)
Lemma logical_paths convert operator v w clauses :
  (forall filters, v = VArr filters ->
     Forall (fun s => forall w cs, convert s = (w, Return cs) ->
               incl (flat_map clausePaths cs) (map VStr (fieldNames s)))
            filters) ->
  convertLogicalOperatorWith convert operator v = (w, Return clauses) ->
  incl (flat_map clausePaths clauses)
       (map VStr (match v with
                  | VArr filters => flat_map fieldNames filters
                  | _ => []
                  end)).
Proof.
  intros Hsubs. unfold convertLogicalOperatorWith, callFlatMap.
  destruct v as [| | | | | | | | filters |];
    try solve [switch_on operator; intros H; inv_return H].
  specialize (Hsubs filters eq_refl).
  switch_on operator; intros H; try discriminate;
    apply bind_Return_inv in H as (w1 & cs & w2 & H1 & H2 & ->);
    inv_return H2; apply (flatMap_paths _ _ _ Hsubs) in H1;
    simpl; rewrite ?app_nil_r; exact H1.
Qed.

Lemma queryLoop_paths logical es :
  (forall k v w cs, In (k, v) es -> startsWith k "$" = true ->
     logical k v = (w, Return cs) ->
     incl (flat_map clausePaths cs)
          (map VStr (match v with
                     | VArr filters => flat_map fieldNames filters
                     | _ => []
                     end))) ->
  forall acc w clauses allowed,
    forOf (queryEntryCase logical) es acc = (w, Return clauses) ->
    incl (flat_map clausePaths acc) allowed ->
    incl (map VStr (fieldNames (VObj es))) allowed ->
    incl (flat_map clausePaths clauses) allowed.
Proof.
  induction es as [| [k v] es IH]; intros Hlog acc w clauses allowed H Hacc Hes.
  - simpl in H. inv_return H. exact Hacc.
  - rewrite forOf_cons in H.
    apply bind_Return_inv in H as (w1 & acc1 & w2 & H1 & H2 & ->).
    simpl in Hes. rewrite map_app in Hes. apply incl_app_inv in Hes as [Hk Hes].
    eapply IH; [| exact H2 | | exact Hes].
    + intros. eapply Hlog; eauto. now right.
    + unfold queryEntryCase in H1. destruct (startsWith k "$") eqn:Hs;
        apply bind_Return_inv in H1 as (w3 & cs & w4 & H3 & H4 & ->);
        inv_return H4; rewrite flat_map_app; apply incl_app; trivial.
      * eapply incl_tran; [| exact Hk].
        eapply Hlog; eauto. now left.
      * eapply incl_tran; [| exact Hk]. eapply fieldQuery_paths; eauto.
Qed.

Lemma fieldNames_indexKeyed es :
  indexKeyed es -> fieldNames (VObj es) = map fst es.
Proof.
  induction 1 as [| [k v] es Hk _ IH]; [reflexivity |].
  simpl in *. now rewrite Hk, IH.
Qed.

Lemma convertQuery_paths_nested v :
  (forall w clauses,
     convertQuery v = (w, Return clauses) ->
     incl (flat_map clausePaths clauses) (map VStr (fieldNames v))) /\
  (forall filters, v = VArr filters ->
     Forall (fun s => forall w cs, convertQuery s = (w, Return cs) ->
               incl (flat_map clausePaths cs) (map VStr (fieldNames s)))
            filters).
Proof.
  assert (K : forall u w clauses, isPlainObject u = false ->
    (es <- entries u ;;
     forOf (queryEntryCase
              (convertLogicalOperatorWith (fun _ => throw TypeError))) es []) =
      (w, Return clauses) ->
    incl (flat_map clausePaths clauses) (map VStr (map fst (own_entries u)))).
  { intros u w clauses Hu H.
    apply bind_Return_inv in H as (w1 & es & w2 & H1 & H2 & ->).
    assert (es = own_entries u) as ->
      by (destruct u; try discriminate; inversion H1; reflexivity).
    eapply queryLoop_paths; [| exact H2 | easy |].
    - intros k x w cs _ _. apply logical_paths. intros filters _.
      apply Forall_forall. intros s _ w' cs' E. discriminate.
    - rewrite fieldNames_indexKeyed by now apply own_entries_indexKeyed.
      apply incl_refl. }
  induction v as [| | | | | | | | elems IH | props IH] using value_nested_ind;
    try (split; [intros w clauses H; now apply K in H | discriminate]).
  - split; [intros w clauses H; now apply K in H |].
    intros filters E. inversion E; subst.
    eapply Forall_impl; [| exact IH]. now intros s [Hs _].
  - split; [| discriminate]. intros w clauses H. simpl convertQuery in H.
    eapply queryLoop_paths; [| exact H | easy | apply incl_refl].
    intros k x w' cs Hin _. apply logical_paths.
    rewrite Forall_forall in IH. exact (proj2 (IH _ Hin)).
Qed.

(** X10: Every path the translation of a filter searches is a field name of the
    filter: a key that does not start with [$], of the filter itself or of a
    filter listed under [$and], [$or] or [$nor].  The clauses of one field
    are all on that field, so no clause reaches a field the filter does not
    name. *)
Theorem paths_are_field_names query w clauses :
  convertQuery query = (w, Return clauses) ->
  incl (flat_map clausePaths clauses) (map VStr (fieldNames query)).
Proof. apply convertQuery_paths_nested. Qed.

Lemma paths_are_field_names_witness :
  convertQuery
    (VObj [("a", VObj [("$gt", VNum 1); ("$not", VObj [("$regex", VStr "^x")])]);
           ("$or", VArr [VObj [("b", VNull)]; VObj [("c", VArr [])]])]) =
  ([], Return
     [rangeClause "a" "gt" (VNum 1);
      mustNotClause [VObj [("regex", VObj [("query", VStr "^x");
                                           ("path", VStr "a")])]];
      shouldClause [nullClause "b"; mustNotClause [existsClause "c"]]]) /\
  incl (flat_map clausePaths
     [rangeClause "a" "gt" (VNum 1);
      mustNotClause [VObj [("regex", VObj [("query", VStr "^x");
                                           ("path", VStr "a")])]];
      shouldClause [nullClause "b"; mustNotClause [existsClause "c"]]])
    [VStr "a"; VStr "b"; VStr "c"].
Proof.
  split; [reflexivity |].
  exact (paths_are_field_names
    (VObj [("a", VObj [("$gt", VNum 1); ("$not", VObj [("$regex", VStr "^x")])]);
           ("$or", VArr [VObj [("b", VNull)]; VObj [("c", VArr [])]])])
    _ _ eq_refl).
Defined.

(* ================================================================== *)
(** * The shape of the request *)

Lemma spread_clause kind body i :
  In kind clauseKinds ->
  spread [("index", i)] (VObj [(kind, body)]) = [("index", i); (kind, body)].
Proof.
  unfold clauseKinds. simpl. intros H.
  repeat (destruct H as [<- | H]; [reflexivity |]). easy.
Qed.

Lemma searchClause_inv clause :
  isSearchClause clause = true ->
  exists kind body, clause = VObj [(kind, body)] /\ In kind clauseKinds.
Proof.
  unfold isSearchClause, clauseKind.
  destruct clause as [| | | | | | | | | [| [kind body] [|]]]; try discriminate.
  intros H. exists kind, body. split; [reflexivity |].
  apply existsb_exists in H as (k & Hk & E). apply String.eqb_eq in E.
  now subst.
Qed.

(** The request of [convertQueryToSearch]: [index] and one operator. *)
Lemma convertQueryToSearch_shape this query w stage :
  convertQueryToSearch this query = (w, Return stage) ->
  exists kind body,
    In kind clauseKinds /\
    stage = searchStageOf [("index", indexName this); (kind, body)].
Proof.
  unfold convertQueryToSearch. intros H.
  apply bind_Return_inv in H as (w1 & es & w2 & _ & H & ->).
  assert (Hall : exists kind body,
            In kind clauseKinds /\
            matchAll this = searchStageOf [("index", indexName this); (kind, body)]).
  { exists "exists", (VObj [("path", VStr "_id")]). split; [| reflexivity].
    simpl. tauto. }
  destruct (List.length es =? 0)%nat; [now inv_return H |].
  apply bind_Return_inv in H as (w3 & clauses & w4 & Hq & H & ->).
  apply convertQuery_clauses in Hq.
  destruct clauses as [| clause [| clause' clauses]]; simpl in H; inv_return H;
    trivial.
  - unfold allClauses in Hq. simpl in Hq. rewrite andb_true_r in Hq.
    apply searchClause_inv in Hq as (kind & body & -> & Hk).
    exists kind, body. split; trivial. now rewrite spread_clause.
  - eexists "compound", _. split; [simpl; tauto | reflexivity].
Qed.

Lemma setSearchSort_appends i kind body s :
  In kind clauseKinds ->
  setSearchSort (searchStageOf [("index", i); (kind, body)]) s =
  ret (searchStageOf [("index", i); (kind, body); ("sort", s)]).
Proof.
  unfold clauseKinds. simpl. intros H.
  repeat (destruct H as [<- | H]; [reflexivity |]). easy.
Qed.

(** X11: What [convertQueryToSearchWithOptions] returns is the request of
    [convertQueryToSearch], which is one [$search] stage with [index] and
    exactly one of the six operators [equals], [range], [in], [exists],
    [regex] and [compound], with one key more in one case only: when
    [options.sort] is truthy and converts to something truthy, that is
    added as [sort], the last key.  When [options.sort] is falsy, or converts
    to [null], the request is returned as it is.  The warnings are those of
    the filter followed by those of the sort. *)
Theorem request_has_one_operator this query options w stage :
  convertQueryToSearchWithOptions this query options = (w, Return stage) ->
  exists kind body w0,
    In kind clauseKinds /\
    convertQueryToSearch this query =
      (w0, Return (VObj [("$search",
                          VObj [("index", indexName this); (kind, body)])])) /\
    if truthy (sort options) then
      exists ws s,
        convertSortToAtlasSearch (sort options) = (ws, Return s) /\
        w = w0 ++ ws /\
        stage =
          if truthy s
          then VObj [("$search",
                      VObj [("index", indexName this); (kind, body);
                            ("sort", s)])]
          else VObj [("$search",
                      VObj [("index", indexName this); (kind, body)])]
    else
      w = w0 /\
      stage = VObj [("$search",
                     VObj [("index", indexName this); (kind, body)])].
Proof.
  unfold convertQueryToSearchWithOptions. intros H.
  apply bind_Return_inv in H as (w1 & base & w2 & Hb & H & ->).
  destruct (convertQueryToSearch_shape _ _ _ _ Hb) as (kind & body & Hk & ->).
  exists kind, body, w1. split; [exact Hk |]. split; [exact Hb |].
  destruct (truthy (sort options)).
  - apply bind_Return_inv in H as (w3 & s & w4 & Hs & H & ->).
    exists w3, s. split; [exact Hs |].
    destruct (truthy s) eqn:Ht.
    + rewrite setSearchSort_appends in H by exact Hk. inv_return H.
      now rewrite app_nil_r.
    + inv_return H. now rewrite app_nil_r.
  - inv_return H. now rewrite app_nil_r.
Qed.

Lemma request_has_one_operator_witness :
  convertQueryToSearchWithOptions (constructor (VStr "movies"))
    (VObj [("year", VObj [("$gte", VNum 2000)])])
    (sortOnly (VObj [("year", VNum (-1))])) =
  ([], Return
     (VObj [("$search",
             VObj [("index", VStr "movies");
                   ("range", VObj [("path", VStr "year"); ("gte", VNum 2000)]);
                   ("sort", VObj [("year", VObj [("order", VNum (-1))])])])])) /\
  exists kind body w0,
    In kind clauseKinds /\
    convertQueryToSearch (constructor (VStr "movies"))
      (VObj [("year", VObj [("$gte", VNum 2000)])]) =
      (w0, Return (VObj [("$search",
                          VObj [("index", VStr "movies"); (kind, body)])])) /\
    exists ws s,
      convertSortToAtlasSearch (VObj [("year", VNum (-1))]) = (ws, Return s) /\
      [] = w0 ++ ws /\
      VObj [("$search",
             VObj [("index", VStr "movies");
                   ("range", VObj [("path", VStr "year"); ("gte", VNum 2000)]);
                   ("sort", VObj [("year", VObj [("order", VNum (-1))])])])] =
      if truthy s
      then VObj [("$search",
                  VObj [("index", VStr "movies"); (kind, body); ("sort", s)])]
      else VObj [("$search", VObj [("index", VStr "movies"); (kind, body)])].
Proof.
  split; [reflexivity |].
  exact (request_has_one_operator (constructor (VStr "movies"))
           (VObj [("year", VObj [("$gte", VNum 2000)])])
           (sortOnly (VObj [("year", VNum (-1))])) _ _ eq_refl).
Defined.

(* ================================================================== *)
(** * Sort *)

Lemma obj_set_fresh props k v :
  ~ In k (map fst props) -> obj_set props k v = props ++ [(k, v)].
Proof.
  induction props as [| [k' v'] props IH]; simpl; intros H; [reflexivity |].
  destruct (String.eqb_spec k' k) as [-> | _]; [tauto |].
  rewrite IH; tauto.
Qed.

Lemma sortLoop_numeric es :
  forall searchSort,
    forallb (fun kv => typeof_number (snd kv)) es = true ->
    NoDup (map fst searchSort ++ map fst es) ->
    ~ In "__proto__" (map fst es) ->
    sortLoop es searchSort =
    ret (if (0 <? List.length (searchSort ++ map sortField es))%nat
         then VObj (searchSort ++ map sortField es) else VNull).
Proof.
  induction es as [| [f d] es IH]; intros searchSort Hnum Hnd Hproto; simpl.
  - now rewrite app_nil_r.
  - simpl in Hnum, Hproto. apply andb_true_iff in Hnum as [-> Hnum].
    unfold obj_assign.
    destruct (String.eqb_spec f "__proto__") as [-> | _]; [tauto |].
    rewrite obj_set_fresh.
    + rewrite IH; trivial.
      * unfold sortField at 3. simpl. now rewrite <- app_assoc.
      * rewrite map_app, <- app_assoc. exact Hnd.
      * tauto.
    + apply NoDup_remove_2 in Hnd. intros Hin. apply Hnd, in_or_app. now left.
Qed.

(** X12: A sort specification whose directions are all numbers converts, field
    by field and in the same order, to [field: { order: direction }], and
    [convertQueryToSearchWithOptions] adds the result as [sort], the last
    key of the request, printing nothing more.  The fields are those of an
    object, so no two have the same name; a field named [__proto__] is left
    aside, since the assignment [searchSort[field] = ...] defines no
    property of that name. *)
Theorem numeric_sort_is_embedded this query fields w stage :
  fields <> [] ->
  NoDup (map fst fields) ->
  ~ In "__proto__" (map fst fields) ->
  forallb (fun kv => typeof_number (snd kv)) fields = true ->
  convertQueryToSearch this query = (w, Return stage) ->
  convertSortToAtlasSearch (VObj fields) =
    ([], Return (VObj (map sortField fields))) /\
  exists request,
    stage = VObj [("$search", VObj request)] /\
    convertQueryToSearchWithOptions this query (sortOnly (VObj fields)) =
    (w, Return
          (VObj [("$search",
                  VObj (request ++ [("sort", VObj (map sortField fields))]))])).
Proof.
  intros Hne Hnd Hproto Hnum Hq.
  assert (Hs : convertSortToAtlasSearch (VObj fields) =
               ([], Return (VObj (map sortField fields)))).
  { unfold convertSortToAtlasSearch. simpl.
    rewrite sortLoop_numeric; trivial. simpl.
    destruct fields; [congruence | reflexivity]. }
  split; [exact Hs |].
  destruct (convertQueryToSearch_shape _ _ _ _ Hq) as (kind & body & Hk & ->).
  eexists. split; [reflexivity |].
  unfold convertQueryToSearchWithOptions. rewrite Hq, bind_return.
  cbn [sort sortOnly truthy]. rewrite Hs, bind_quiet. cbn [truthy].
  rewrite setSearchSort_appends by exact Hk. simpl.
  now rewrite !app_nil_r.
Qed.

Lemma numeric_sort_is_embedded_witness :
  [("year", VNum (-1)); ("title", VNum 1)] <> [] /\
  convertSortToAtlasSearch (VObj [("year", VNum (-1)); ("title", VNum 1)]) =
    ([], Return (VObj [("year", VObj [("order", VNum (-1))]);
                       ("title", VObj [("order", VNum 1)])])).
Proof.
  split; [discriminate |].
  refine (proj1 (numeric_sort_is_embedded (constructor VUndefined) (VObj [])
                   [("year", VNum (-1)); ("title", VNum 1)] [] _ _ _ _ _
                   eq_refl)).
  - discriminate.
  - repeat constructor; simpl; intuition discriminate.
  - simpl; intuition discriminate.
  - reflexivity.
Defined.

(** X13: A sort that is falsy, is no object, or has no field is ignored without
    a word: [convertFindQuery] gives what it gives without [sort]. *)
Theorem sort_without_fields_is_ignored this query options :
  truthy (sort options) = false \/ typeof_object (sort options) = false \/
  own_entries (sort options) = [] ->
  convertFindQuery this query options =
  convertFindQuery this query (withSort options VUndefined).
Proof.
  intros H. unfold convertFindQuery at 2. simpl.
  change (pushOptions (withSort options VUndefined))
    with (pushOptions options).
  unfold convertFindQuery. destruct (truthy (sort options)) eqn:Ht; trivial.
  assert (Hs : convertSortToAtlasSearch (sort options) = ret VNull).
  { unfold convertSortToAtlasSearch. rewrite Ht. simpl.
    destruct H as [H | [H | H]]; [discriminate | now rewrite H |].
    rewrite H. now destruct (typeof_object (sort options)). }
  unfold convertQueryToSearchWithOptions. simpl. rewrite Ht, Hs.
  rewrite bind_assoc. apply bind_ext. intros base.
  now rewrite !bind_ret_l.
Qed.

Lemma sort_without_fields_is_ignored_witness :
  convertFindQuery (constructor VUndefined) (VObj [("a", VNum 1)])
    (sortOnly (VStr "a")) =
  convertFindQuery (constructor VUndefined) (VObj [("a", VNum 1)])
    (withSort (sortOnly (VStr "a")) VUndefined).
Proof.
  apply (sort_without_fields_is_ignored (constructor VUndefined)
           (VObj [("a", VNum 1)]) (sortOnly (VStr "a"))).
  right. left. reflexivity.
Defined.

(** X14: A sort with a direction that is not a number is not translated at all.
    Take the first such field.  If the filter converts, [convertFindQuery]
    prints one more warning, for that field, and returns the pipeline it
    returns without [sort], with no [$sort] stage in its place; unless the
    direction has no string for the message of the warning (an object with
    a property [toString] of its own, or an array with such an element):
    then it throws a TypeError and prints no warning for the field.  If the
    filter does not convert, the exception is the one without [sort]. *)
Theorem unconvertible_sort_is_dropped_by_find this query options
  before field direction after :
  sort options = VObj (before ++ (field, direction) :: after) ->
  forallb (fun kv => typeof_number (snd kv)) before = true ->
  typeof_number direction = false ->
  convertFindQuery this query options =
  match convertFindQuery this query (withSort options VUndefined) with
  | (w, Return pipeline) =>
      if toStringThrows direction then (w, Throw TypeError)
      else (w ++ [ComplexSortField field direction], Return pipeline)
  | (w, Throw e) => (w, Throw e)
  end.
Proof.
  intros Hs Hb Hd. unfold convertFindQuery at 2. simpl.
  change (pushOptions (withSort options VUndefined))
    with (pushOptions options).
  unfold convertFindQuery, convertQueryToSearchWithOptions.
  rewrite Hs. simpl. unfold convertSortToAtlasSearch. simpl.
  rewrite sortLoop_nonnumeric by assumption.
  destruct (convertQueryToSearch this query) as [w [base | e]];
    [| reflexivity].
  destruct (toStringThrows direction); unfold bind, ret; simpl;
    now rewrite ?app_nil_r.
Qed.

Lemma unconvertible_sort_is_dropped_by_find_witness :
  convertFindQuery (constructor VUndefined) (VObj [("a", VNum 1)])
    (sortOnly (VObj [("score", VObj [("$meta", VStr "textScore")])])) =
  ([ComplexSortField "score" (VObj [("$meta", VStr "textScore")])],
   Return [VObj [("$search",
                  VObj [("index", VStr "default");
                        ("equals", VObj [("path", VStr "a");
                                         ("value", VNum 1)])])]]) /\
  convertFindQuery (constructor VUndefined) (VObj [("a", VNum 1)])
    (sortOnly (VObj [("score", VObj [("toString", VNum 1)])])) =
  ([], Throw TypeError).
Proof.
  split.
  - exact (unconvertible_sort_is_dropped_by_find (constructor VUndefined)
             (VObj [("a", VNum 1)])
             (sortOnly (VObj [("score", VObj [("$meta", VStr "textScore")])]))
             [] "score" (VObj [("$meta", VStr "textScore")]) []
             eq_refl eq_refl eq_refl).
  - exact (unconvertible_sort_is_dropped_by_find (constructor VUndefined)
             (VObj [("a", VNum 1)])
             (sortOnly (VObj [("score", VObj [("toString", VNum 1)])]))
             [] "score" (VObj [("toString", VNum 1)]) []
             eq_refl eq_refl eq_refl).
Defined.

(* ================================================================== *)
(** * Pipelines *)

(** X15: [$match], then [$skip] and [$limit] in either order, at the end of a
    pipeline: the fold emits the request, then [$limit], then [$skip],
    whichever came first in the input, whereas [convertFindQuery] with the
    same [skip] and [limit] emits [$skip] before [$limit]. *)
Theorem fold_puts_limit_before_skip this options query k l w request :
  truthy query = true -> truthy k = true -> truthy l = true ->
  convertQueryToSearch this query = (w, Return request) ->
  convertAggregationPipeline this
    (VArr [VObj [("$match", query)]; VObj [("$skip", k)]; VObj [("$limit", l)]])
    options =
    (w, Return [request; VObj [("$limit", l)]; VObj [("$skip", k)]]) /\
  convertAggregationPipeline this
    (VArr [VObj [("$match", query)]; VObj [("$limit", l)]; VObj [("$skip", k)]])
    options =
    (w, Return [request; VObj [("$limit", l)]; VObj [("$skip", k)]]) /\
  convertFindQuery this query
    {| projection := VUndefined; sort := VUndefined; limit := l; skip := k;
       includeProjection := VUndefined |} =
    (w, Return [request; VObj [("$skip", k)]; VObj [("$limit", l)]]).
Proof.
  intros Hq Hk Hl Hs. repeat split.
  - unfold convertAggregationPipeline. cbn [List.length].
    rewrite pipelineLoop_S. simpl. rewrite bind_ret_l, Hq.
    unfold optimizePipelineSequence. simpl. rewrite bind_ret_l, Hq. simpl.
    repeat (progress (rewrite ?bind_ret_l, ?Hk, ?Hl; simpl)).
    unfold convertQueryToSearchWithOptions. rewrite Hs. simpl.
    unfold bind, ret. simpl. now rewrite !app_nil_r.
  - unfold convertAggregationPipeline. cbn [List.length].
    rewrite pipelineLoop_S. simpl. rewrite bind_ret_l, Hq.
    unfold optimizePipelineSequence. simpl. rewrite bind_ret_l, Hq. simpl.
    repeat (progress (rewrite ?bind_ret_l, ?Hk, ?Hl; simpl)).
    unfold convertQueryToSearchWithOptions. rewrite Hs. simpl.
    unfold bind, ret. simpl. now rewrite !app_nil_r.
  - unfold convertFindQuery, pushOptions. simpl. rewrite Hs, Hk, Hl.
    unfold bind, ret. simpl. now rewrite !app_nil_r.
Qed.

Lemma fold_puts_limit_before_skip_witness :
  convertAggregationPipeline (constructor VUndefined)
    (VArr [VObj [("$match", VObj [("a", VNum 1)])];
           VObj [("$skip", VNum 10)]; VObj [("$limit", VNum 5)]])
    noOptions =
  ([], Return [VObj [("$search",
                      VObj [("index", VStr "default");
                            ("equals", VObj [("path", VStr "a");
                                             ("value", VNum 1)])])];
               VObj [("$limit", VNum 5)]; VObj [("$skip", VNum 10)]]).
Proof.
  exact (proj1 (fold_puts_limit_before_skip (constructor VUndefined) noOptions
                  (VObj [("a", VNum 1)]) (VNum 10) (VNum 5) [] _
                  eq_refl eq_refl eq_refl eq_refl)).
Defined.

(** X16: The pipeline [$match], [$sort], [$limit] translates exactly as the find
    query with the same filter, sort and limit: same warnings, same stages
    or same exception. *)
Theorem sorted_limited_pipeline_is_find this options query sortSpec l :
  truthy query = true -> truthy sortSpec = true -> truthy l = true ->
  convertAggregationPipeline this
    (VArr [VObj [("$match", query)]; VObj [("$sort", sortSpec)];
           VObj [("$limit", l)]])
    options =
  convertFindQuery this query
    {| projection := VUndefined; sort := sortSpec; limit := l;
       skip := VUndefined; includeProjection := VUndefined |}.
Proof.
  intros Hq Hs Hl.
  unfold convertAggregationPipeline, convertFindQuery, pushOptions.
  cbn [List.length sort projection skip limit truthy]. rewrite Hs, Hl.
  rewrite pipelineLoop_S. simpl. rewrite bind_ret_l, Hq.
  unfold optimizePipelineSequence. simpl. rewrite bind_ret_l, Hq. simpl.
  repeat (progress (rewrite ?bind_ret_l, ?Hs, ?Hl; simpl)).
  rewrite !bind_assoc. apply bind_ext. intros request.
  now rewrite !bind_ret_l.
Qed.

Lemma sorted_limited_pipeline_is_find_witness :
  convertAggregationPipeline (constructor VUndefined)
    (VArr [VObj [("$match", VObj [("a", VNum 1)])];
           VObj [("$sort", VObj [("b", VNum 1)])];
           VObj [("$limit", VNum 5)]])
    noOptions =
  convertFindQuery (constructor VUndefined) (VObj [("a", VNum 1)])
    {| projection := VUndefined; sort := VObj [("b", VNum 1)];
       limit := VNum 5; skip := VUndefined;
       includeProjection := VUndefined |}.
Proof.
  exact (sorted_limited_pipeline_is_find (constructor VUndefined) noOptions
           (VObj [("a", VNum 1)]) (VObj [("b", VNum 1)]) (VNum 5)
           eq_refl eq_refl eq_refl).
Defined.

(** X17: A pipeline none of whose stages has a truthy [$match] is returned as
    it is, stage for stage, without a warning. *)
Theorem pipeline_without_match_is_unchanged this options stages :
  Forall (keyFalsy "$match") stages ->
  convertAggregationPipeline this (VArr stages) options = ([], Return stages).
Proof.
  intros H. unfold convertAggregationPipeline.
  rewrite pipelineLoop_passthrough; trivial. lia.
Qed.

Lemma pipeline_without_match_is_unchanged_witness :
  convertAggregationPipeline (constructor VUndefined)
    (VArr [VObj [("$group", VObj [("_id", VStr "$a")])];
           VObj [("$sort", VObj [("n", VNum 1)])]; VStr "x"])
    noOptions =
  ([], Return [VObj [("$group", VObj [("_id", VStr "$a")])];
               VObj [("$sort", VObj [("n", VNum 1)])]; VStr "x"]).
Proof.
  apply (pipeline_without_match_is_unchanged (constructor VUndefined) noOptions).
  repeat constructor; eexists; split; reflexivity.
Defined.

(** ** A stage that is [null] or [undefined] *)

Lemma throws_get v name : isNullish v = true -> throws (get v name).
Proof. destruct v; try discriminate; intros _; now exists [], TypeError. Qed.

Lemma throws_bind_Return {A B} w (a : A) (f : A -> M B) :
  throws (f a) -> throws (bind (w, Return a) f).
Proof.
  intros (w' & e & E). exists (w ++ w'), e. unfold bind. now rewrite E.
Qed.

Lemma throws_or_bind {A B} (m : M A) (f : A -> M B) :
  (forall w a, m = (w, Return a) -> throws (f a)) -> throws (bind m f).
Proof.
  intros H. destruct m as [w [a | e]].
  - apply throws_bind_Return. now apply (H w).
  - now exists w, e.
Qed.

(** The look-ahead does not get past such a stage. *)
Lemma scanStages_nullish options p stages :
  forall st w st',
    scanStages options stages st = (w, Return st') ->
    currentIndex st <= p ->
    p - currentIndex st < List.length stages ->
    isNullish (nth (p - currentIndex st) stages VUndefined) = true ->
    currentIndex st' <= p.
Proof.
  induction stages as [| stage rest IH]; intros st w st' H Hle Hlt Hn.
  - simpl in Hlt. lia.
  - destruct (Nat.eq_dec p (currentIndex st)) as [-> | Hne].
    + rewrite Nat.sub_diag in Hn. simpl in Hn, H.
      destruct (throws_get stage "$sort" Hn) as (w0 & e & E).
      rewrite E in H. discriminate.
    + replace (p - currentIndex st) with (S (p - S (currentIndex st))) in *
        by lia.
      simpl in Hlt, Hn, H. inv_return H;
        try match goal with
          | R : scanStages _ _ _ = _ |- _ =>
              apply IH in R; simpl; trivial; simpl; lia
          end.
      simpl. exact Hle.
Qed.

Lemma optimize_scan this pipeline startIndex options w s r n :
  optimizePipelineSequence this pipeline startIndex options =
    (w, Return (Optimized s r n)) ->
  exists w' st,
    scanStages options (skipn (startIndex + 1) pipeline) (scanStart startIndex) =
      (w', Return st) /\
    n = currentIndex st.
Proof.
  unfold optimizePipelineSequence. intros H.
  apply bind_Return_inv in H as (w1 & query & w2 & _ & H & ->).
  destruct (negb (truthy query)); [inv_return H |].
  apply bind_Return_inv in H as (w3 & st & w4 & Hscan & H & ->).
  exists w3, st. split; [exact Hscan |].
  apply bind_Return_inv in H as (w5 & sortSpec & w6 & _ & H & ->).
  apply bind_Return_inv in H as (w7 & searchStage & w8 & _ & H & ->).
  apply bind_Return_inv in H as (w9 & rem1 & w10 & _ & H & ->).
  apply bind_Return_inv in H as (w11 & rem2 & w12 & _ & H & ->).
  now inv_return H.
Qed.

Lemma nth_skipn_shift {A} (l : list A) i j d :
  nth j (skipn i l) d = nth (i + j) l d.
Proof.
  revert l. induction i as [| i IH]; intros l; [reflexivity |].
  destruct l as [| x l]; simpl; [now destruct j | apply IH].
Qed.

Lemma pipelineLoop_nullish this pipeline options p :
  p < List.length pipeline ->
  isNullish (nth p pipeline VUndefined) = true ->
  forall n i newPipeline,
    i <= p -> List.length pipeline - i <= n ->
    throws (pipelineLoop n this pipeline options i newPipeline).
Proof.
  intros Hp Hnull. induction n as [| n IH]; intros i newPipeline Hi Hn;
    [lia |].
  rewrite pipelineLoop_S.
  destruct (Nat.ltb_spec i (List.length pipeline)) as [_ | ?]; [| lia].
  destruct (Nat.eq_dec i p) as [-> | Hne].
  - apply throws_bind_l. now apply throws_get.
  - apply throws_or_bind. intros w query _.
    destruct (truthy query); [| apply IH; lia].
    apply throws_or_bind. intros w' [| s r next] Ho.
    + apply throws_bind_r. intros request. apply IH; lia.
    + pose proof (optimize_nextIndex _ _ _ _ _ _ _ _ Ho) as Hnext.
      apply optimize_scan in Ho as (w'' & st & Hscan & ->).
      apply IH; [| lia].
      apply (scanStages_nullish _ p) in Hscan; trivial; simpl.
      * lia.
      * rewrite length_skipn. lia.
      * rewrite nth_skipn_shift.
        now replace (i + 1 + (p - (i + 1))) with p by lia.
Qed.

(** X18: A pipeline with a stage that is [null] or [undefined], wherever it
    stands and whatever the other stages are, is not converted:
    [convertAggregationPipeline] throws. *)
Theorem nullish_stage_is_fatal this options stages stage :
  In stage stages -> isNullish stage = true ->
  throws (convertAggregationPipeline this (VArr stages) options).
Proof.
  intros Hin Hnull.
  apply (In_nth _ _ VUndefined) in Hin as (p & Hp & E).
  unfold convertAggregationPipeline.
  apply (pipelineLoop_nullish _ _ _ p); trivial; try lia.
  now rewrite E.
Qed.

Lemma nullish_stage_is_fatal_witness :
  throws (convertAggregationPipeline (constructor VUndefined)
            (VArr [VObj [("$match", VObj [("a", VNum 1)])];
                   VObj [("$limit", VNum 5)]; VNull])
            noOptions).
Proof.
  apply (nullish_stage_is_fatal (constructor VUndefined) noOptions
           [VObj [("$match", VObj [("a", VNum 1)])];
            VObj [("$limit", VNum 5)]; VNull] VNull).
  - simpl. tauto.
  - reflexivity.
Defined.

(* ================================================================== *)
(** * Text search and autocomplete *)

Lemma lookup_fresh k props :
  ~ In k (map fst props) -> lookup k props = None.
Proof.
  induction props as [| [k' v'] props IH]; simpl; intros H; [reflexivity |].
  destruct (String.eqb_spec k' k) as [-> | _]; [tauto |]. apply IH. tauto.
Qed.

Lemma lookup_insertIndex_same n k v props :
  lookup k props = None -> lookup k (insertIndex n k v props) = Some v.
Proof.
  induction props as [| [k' v'] props IH]; simpl; intros H.
  - now rewrite String.eqb_refl.
  - destruct (k' =? k) eqn:E; [discriminate |].
    destruct (arrayIndex k') as [n' |]; [destruct (n' <? n)%N |]; simpl;
      rewrite ?E, ?String.eqb_refl; auto.
Qed.

Lemma lookup_insertIndex_other n k k' v props :
  (k' =? k) = false ->
  lookup k (insertIndex n k' v props) = lookup k props.
Proof.
  intros Hk. induction props as [| [k0 v0] props IH]; simpl.
  - now rewrite Hk.
  - destruct (arrayIndex k0) as [n0 |]; [destruct (n0 <? n)%N |]; simpl;
      rewrite ?Hk, ?IH; reflexivity.
Qed.

Lemma lookup_obj_define_same props k v :
  lookup k (obj_define props k v) = Some v.
Proof.
  unfold obj_define. destruct (lookup k props) eqn:E;
    [apply lookup_obj_set_same |].
  destruct (arrayIndex k);
    [now apply lookup_insertIndex_same | apply lookup_obj_set_same].
Qed.

Lemma lookup_obj_define_other props k k' v :
  (k' =? k) = false -> lookup k (obj_define props k' v) = lookup k props.
Proof.
  intros Hk. unfold obj_define. destruct (lookup k' props);
    [now apply lookup_obj_set_other |].
  destruct (arrayIndex k');
    [now apply lookup_insertIndex_other | now apply lookup_obj_set_other].
Qed.

(** Reading a property of [{...base, ...options}]: the one of [options] if
    it has one, else the one of [base]. *)
Lemma lookup_spread k options :
  NoDup (map fst options) ->
  forall base,
    lookup k (spread base (VObj options)) =
    match lookup k options with
    | Some v => Some v
    | None => lookup k base
    end.
Proof.
  unfold spread. simpl.
  induction options as [| [k' v'] options IH]; intros Hnd base; simpl;
    [reflexivity |].
  inversion Hnd as [| ? ? Hfresh Hnd']; subst. rewrite IH by exact Hnd'.
  destruct (String.eqb_spec k' k) as [-> | Hne].
  - rewrite lookup_fresh by exact Hfresh. apply lookup_obj_define_same.
  - rewrite lookup_obj_define_other; [reflexivity |]. now apply String.eqb_neq.
Qed.

(** X19: The operator object of [createTextSearch] and of [createAutocomplete]
    is the options object laid over [query] and [path]: every property of
    the options is in it, [query] and [path] included, so an option of that
    name replaces the search text or the path; without such an option they
    are the arguments, the path of a text search being ['*'] when none is
    given. *)
Theorem options_override_query_and_path this text path options k :
  NoDup (map fst options) ->
  exists textBody completeBody,
    createTextSearch this text path (VObj options) =
      VObj [("$search", VObj [("index", indexName this);
                              ("text", VObj textBody)])] /\
    createAutocomplete this text path (VObj options) =
      VObj [("$search", VObj [("index", indexName this);
                              ("autocomplete", VObj completeBody)])] /\
    lookup k textBody =
      match lookup k options with
      | Some v => Some v
      | None =>
          lookup k [("query", text);
                    ("path", match path with
                             | VUndefined => VStr "*"
                             | _ => path
                             end)]
      end /\
    lookup k completeBody =
      match lookup k options with
      | Some v => Some v
      | None => lookup k [("query", text); ("path", path)]
      end.
Proof.
  intros Hnd. eexists _, _. split; [reflexivity |]. split; [reflexivity |].
  split; now apply lookup_spread.
Qed.

Lemma options_override_query_and_path_witness :
  exists textBody completeBody,
    createTextSearch (constructor VUndefined) (VStr "cat") VUndefined
      (VObj [("fuzzy", VObj []); ("query", VStr "dog")]) =
      VObj [("$search", VObj [("index", VStr "default");
                              ("text", VObj textBody)])] /\
    createAutocomplete (constructor VUndefined) (VStr "cat") VUndefined
      (VObj [("fuzzy", VObj []); ("query", VStr "dog")]) =
      VObj [("$search", VObj [("index", VStr "default");
                              ("autocomplete", VObj completeBody)])] /\
    lookup "query" textBody = Some (VStr "dog") /\
    lookup "query" completeBody = Some (VStr "dog").
Proof.
  apply (options_override_query_and_path (constructor VUndefined) (VStr "cat")
           VUndefined [("fuzzy", VObj []); ("query", VStr "dog")] "query").
  repeat constructor; simpl; intuition discriminate.
Defined.

(* ================================================================== *)
(** * The options of a pipeline conversion *)

Lemma scanStages_frame options options' stages :
  truthy (includeProjection options) = truthy (includeProjection options') ->
  forall st, scanStages options stages st = scanStages options' stages st.
Proof.
  intros H. induction stages as [| stage rest IH]; intros st; simpl;
    [reflexivity |].
  repeat (apply bind_ext; intros ?). rewrite H, !IH. reflexivity.
Qed.

Lemma optimize_frame this pipeline startIndex options options' :
  truthy (includeProjection options) = truthy (includeProjection options') ->
  optimizePipelineSequence this pipeline startIndex options =
  optimizePipelineSequence this pipeline startIndex options'.
Proof.
  intros H. unfold optimizePipelineSequence.
  rewrite (scanStages_frame options options') by exact H. now rewrite H.
Qed.

Lemma pipelineLoop_frame this pipeline options options' turns :
  truthy (includeProjection options) = truthy (includeProjection options') ->
  forall i newPipeline,
    pipelineLoop turns this pipeline options i newPipeline =
    pipelineLoop turns this pipeline options' i newPipeline.
Proof.
  intros H. induction turns as [| turns IH]; intros i newPipeline;
    [reflexivity |].
  rewrite !pipelineLoop_S, (optimize_frame this pipeline i options options')
    by exact H.
  destruct (i <? List.length pipeline)%nat; [| reflexivity].
  apply bind_ext. intros query. destruct (truthy query); [| apply IH].
  apply bind_ext. intros [| s r next]; [| apply IH].
  apply bind_ext. intros request. apply IH.
Qed.

(** X20: Of its options, [convertAggregationPipeline] reads only whether
    [includeProjection] is truthy: [sort], [limit], [skip] and [projection]
    given as options change neither the stages, nor the warnings, nor the
    exception. *)
Theorem pipeline_reads_includeProjection_only this pipeline options options' :
  truthy (includeProjection options) = truthy (includeProjection options') ->
  convertAggregationPipeline this pipeline options =
  convertAggregationPipeline this pipeline options'.
Proof.
  intros H. destruct pipeline; try reflexivity.
  now apply pipelineLoop_frame.
Qed.

Lemma pipeline_reads_includeProjection_only_witness :
  convertAggregationPipeline (constructor VUndefined)
    (VArr [VObj [("$match", VObj [("a", VNum 1)])]])
    {| projection := VObj [("a", VNum 1)]; sort := VObj [("a", VNum 1)];
       limit := VNum 5; skip := VNum 2; includeProjection := VUndefined |} =
  convertAggregationPipeline (constructor VUndefined)
    (VArr [VObj [("$match", VObj [("a", VNum 1)])]]) noOptions.
Proof.
  exact (pipeline_reads_includeProjection_only (constructor VUndefined)
           (VArr [VObj [("$match", VObj [("a", VNum 1)])]])
           {| projection := VObj [("a", VNum 1)]; sort := VObj [("a", VNum 1)];
              limit := VNum 5; skip := VNum 2;
              includeProjection := VUndefined |}
           noOptions eq_refl).
Defined.

(* ================================================================== *)
(** * The converter of the demo script *)











(** The pipeline of the demo: stage by stage. *)
Lemma demo_pipeline_loop this stages :
  forall newPipeline w out,
    forOf (Demo.pipelineStage this) stages newPipeline = (w, Return out) ->
    exists converted,
      out = newPipeline ++ converted /\
      Forall2 (stageConverted this) stages converted.
Proof.
  induction stages as [| stage rest IH]; intros newPipeline w out H.
  - simpl in H. inv_return H. exists []. now rewrite app_nil_r.
  - rewrite forOf_cons in H.
    apply bind_Return_inv in H as (w1 & np & w2 & H1 & H2 & ->).
    apply IH in H2 as (converted & -> & Hrest).
    unfold Demo.pipelineStage in H1.
    apply bind_Return_inv in H1 as (w3 & query & w4 & Hg & H1 & ->).
    assert (Hq : get stage "$match" = ret query).
    { destruct stage; simpl in Hg |- *; try discriminate; inversion Hg;
        reflexivity. }
    destruct (truthy query) eqn:Ht.
    + apply bind_Return_inv in H1 as (w5 & request & w6 & Hs & H1 & ->).
      inv_return H1. exists (request :: converted).
      rewrite <- app_assoc. split; [reflexivity |]. constructor; trivial.
      right. now exists query, w5.
    + inv_return H1. exists (stage :: converted).
      rewrite <- app_assoc. split; [reflexivity |]. constructor; trivial.
      left. split; [now exists query | reflexivity].
Qed.

(** X22: The demo converts a pipeline stage by stage: as many stages out as in,
    in the same order, each one either the stage itself, when it has no
    truthy [$match], or the request for its filter.  Nothing is folded,
    moved or repeated. *)
Theorem demo_pipeline_is_stagewise this stages w out :
  Demo.convertAggregationPipeline this stages = (w, Return out) ->
  Forall2 (stageConverted this) stages out /\
  List.length out = List.length stages.
Proof.
  intros H. apply demo_pipeline_loop in H as (converted & -> & H).
  split; [exact H |]. symmetry. exact (Forall2_length H).
Qed.

Lemma demo_pipeline_is_stagewise_witness :
  Demo.convertAggregationPipeline (constructor VUndefined)
    [VObj [("$match", VObj [("category", VStr "electronics")])];
     VObj [("$group", VObj [("_id", VStr "$brand")])];
     VObj [("$sort", VObj [("avgPrice", VNum (-1))])]] =
  ([], Return
     [VObj [("$search",
             VObj [("index", VStr "default");
                   ("equals", VObj [("path", VStr "category");
                                    ("value", VStr "electronics")])])];
      VObj [("$group", VObj [("_id", VStr "$brand")])];
      VObj [("$sort", VObj [("avgPrice", VNum (-1))])]]) /\
  List.length
    [VObj [("$search",
             VObj [("index", VStr "default");
                   ("equals", VObj [("path", VStr "category");
                                    ("value", VStr "electronics")])])];
      VObj [("$group", VObj [("_id", VStr "$brand")])];
      VObj [("$sort", VObj [("avgPrice", VNum (-1))])]] = 3.
Proof.
  split; [reflexivity |].
  exact (proj2 (demo_pipeline_is_stagewise (constructor VUndefined)
    [VObj [("$match", VObj [("category", VStr "electronics")])];
     VObj [("$group", VObj [("_id", VStr "$brand")])];
     VObj [("$sort", VObj [("avgPrice", VNum (-1))])]] _ _ eq_refl)).
Defined.
